(** * URL shortener: a shallow embedding of [main.go] and its PostgreSQL variant

    The service derives an 8-character identifier from a URL (the first
    eight hexadecimal digits of its MD5 digest), stores the mapping and
    redirects from the short form to the original URL.

    Layout of the development:
    - [MD5]      the digest of [crypto/md5], words as [Z] with explicit
                 32-bit wrap-around;
    - [Hex]      [hex.EncodeToString];
    - [Json]     [json.NewDecoder(r.Body).Decode(&data)] for the one-field
                 request struct of [ShortUrlHandler];
    - [Url], [GoPath], [Http]  the [Location] header of [http.Redirect]:
                 which URLs [url.Parse] reads as relative references, and
                 how these are joined to the path of the request;
    - [Mem]      the in-memory service of [main.go];
    - [Pg]       the PostgreSQL service, with the table as a finite map and
                 the driver's errors as an explicit input;
    - the vocabulary of the specification ([derive], [store_inv], ...);
    - the properties, one theorem per claim of the specification. *)

From Stdlib Require Import ZArith Lia Ascii String List.
From stdpp Require Import base option gmap strings list fin_maps.

Local Open Scope Z_scope.

(** Go strings are byte sequences: [string] with 8-bit [ascii] characters. *)
Definition byte_of_ascii (c : ascii) : Z := Z.of_N (N_of_ascii c).
Definition ascii_of_byte (b : Z) : ascii := ascii_of_N (Z.to_N (b mod 256)).

(** [[]byte(s)] *)
Definition bytes_of_string (s : string) : list Z :=
  List.map byte_of_ascii (list_ascii_of_string s).

(** [string(bs)] *)
Definition string_of_bytes (bs : list Z) : string :=
  string_of_list_ascii (List.map ascii_of_byte bs).

(** * crypto/md5 *)
Module MD5.

Definition wrap32 (x : Z) : Z := x mod 2 ^ 32.
Definition wrap64 (x : Z) : Z := x mod 2 ^ 64.

Definition add32 (x y : Z) : Z := wrap32 (x + y).

(** [bits.RotateLeft32] *)
Definition rotl32 (x : Z) (k : Z) : Z :=
  Z.lor (wrap32 (Z.shiftl x k)) (Z.shiftr x (32 - k)).

Definition not32 (x : Z) : Z := Z.lxor x 0xffffffff.

Definition init0 : Z := 0x67452301.
Definition init1 : Z := 0xEFCDAB89.
Definition init2 : Z := 0x98BADCFE.
Definition init3 : Z := 0x10325476.

Definition BlockSize : nat := 64.
Definition Size : nat := 16.

(** The additive constants of the 64 steps, [floor(2^32 * |sin(i+1)|)]. *)
Definition table : list Z :=
[ 0xd76aa478; 0xe8c7b756; 0x242070db; 0xc1bdceee;
  0xf57c0faf; 0x4787c62a; 0xa8304613; 0xfd469501;
  0x698098d8; 0x8b44f7af; 0xffff5bb1; 0x895cd7be;
  0x6b901122; 0xfd987193; 0xa679438e; 0x49b40821;
  0xf61e2562; 0xc040b340; 0x265e5a51; 0xe9b6c7aa;
  0xd62f105d; 0x02441453; 0xd8a1e681; 0xe7d3fbc8;
  0x21e1cde6; 0xc33707d6; 0xf4d50d87; 0x455a14ed;
  0xa9e3e905; 0xfcefa3f8; 0x676f02d9; 0x8d2a4c8a;
  0xfffa3942; 0x8771f681; 0x6d9d6122; 0xfde5380c;
  0xa4beea44; 0x4bdecfa9; 0xf6bb4b60; 0xbebfbc70;
  0x289b7ec6; 0xeaa127fa; 0xd4ef3085; 0x04881d05;
  0xd9d4d039; 0xe6db99e5; 0x1fa27cf8; 0xc4ac5665;
  0xf4292244; 0x432aff97; 0xab9423a7; 0xfc93a039;
  0x655b59c3; 0x8f0ccc92; 0xffeff47d; 0x85845dd1;
  0x6fa87e4f; 0xfe2ce6e0; 0xa3014314; 0x4e0811a1;
  0xf7537e82; 0xbd3af235; 0x2ad7d2bb; 0xeb86d391 ].

(** Left-rotation amounts, four per round. *)
Definition shifts : list Z :=
[ 7; 12; 17; 22; 7; 12; 17; 22; 7; 12; 17; 22; 7; 12; 17; 22;
  5;  9; 14; 20; 5;  9; 14; 20; 5;  9; 14; 20; 5;  9; 14; 20;
  4; 11; 16; 23; 4; 11; 16; 23; 4; 11; 16; 23; 4; 11; 16; 23;
  6; 10; 15; 21; 6; 10; 15; 21; 6; 10; 15; 21; 6; 10; 15; 21 ].

(** [binary.LittleEndian.Uint32] *)
Definition le_uint32 (b0 b1 b2 b3 : Z) : Z :=
  Z.lor (Z.lor b0 (Z.shiftl b1 8)) (Z.lor (Z.shiftl b2 16) (Z.shiftl b3 24)).

(** [binary.LittleEndian.PutUint32] *)
Definition le_put_uint32 (v : Z) : list Z :=
  [ Z.land v 0xff; Z.land (Z.shiftr v 8) 0xff;
    Z.land (Z.shiftr v 16) 0xff; Z.land (Z.shiftr v 24) 0xff ].

(** [binary.LittleEndian.PutUint64] *)
Definition le_put_uint64 (v : Z) : list Z :=
  le_put_uint32 (Z.land v 0xffffffff) ++ le_put_uint32 (Z.shiftr v 32).

(** The sixteen little-endian words of one 64-byte block. *)
Fixpoint words (p : list Z) : list Z :=
  match p with
  | b0 :: b1 :: b2 :: b3 :: p' => le_uint32 b0 b1 b2 b3 :: words p'
  | _ => []
  end.

(** The round function and the message-word index of step [i]. *)
Definition mix (i : Z) (b c d : Z) : Z :=
  if i <? 16 then Z.lxor (Z.land (Z.lxor c d) b) d
  else if i <? 32 then Z.lxor (Z.land (Z.lxor b c) d) c
  else if i <? 48 then Z.lxor (Z.lxor b c) d
  else Z.lxor c (Z.lor b (not32 d)).

Definition word_index (i : Z) : Z :=
  if i <? 16 then i
  else if i <? 32 then (1 + 5 * i) mod 16
  else if i <? 48 then (5 + 3 * i) mod 16
  else (7 * i) mod 16.

Definition zth (l : list Z) (i : Z) : Z := nth (Z.to_nat i) l 0.

(** One of the 64 steps: [a = b + rotl(a + f(b,c,d) + x[k] + t, s)],
    then the four registers rotate. *)
Definition step (xs : list Z) (st : Z * Z * Z * Z) (i : Z) : Z * Z * Z * Z :=
  let '(a, b, c, d) := st in
  let f := mix i b c d in
  let a' := add32 (add32 (add32 a f) (zth xs (word_index i))) (zth table i) in
  (d, add32 b (rotl32 a' (zth shifts i)), b, c).

Definition steps : list Z := List.map Z.of_nat (seq 0 64).

(** The state of a running hash: the four chaining words, the bytes of the
    incomplete block ([d.x[:d.nx]]) and the number of bytes written. *)
Record digest := Digest {
  s : Z * Z * Z * Z;
  x : list Z;
  len : Z
}.

(** [md5.New()] after [Reset] *)
Definition New : digest :=
  {| s := (init0, init1, init2, init3); x := []; len := 0 |}.

(** [blockGeneric] on a single 64-byte block. *)
Definition block (st : Z * Z * Z * Z) (p : list Z) : Z * Z * Z * Z :=
  let '(a, b, c, d) := st in
  let '(a', b', c', d') := fold_left (step (words p)) steps st in
  (add32 a a', add32 b b', add32 c c', add32 d d').

(** Writing one byte: it joins the pending block, which is compressed as
    soon as it holds [BlockSize] bytes. *)
Definition write_byte (d : digest) (b : Z) : digest :=
  let buf := x d ++ [b] in
  if Nat.eqb (length buf) BlockSize
  then {| s := block (s d) buf; x := []; len := wrap64 (len d + 1) |}
  else {| s := s d; x := buf; len := wrap64 (len d + 1) |}.

(** [digest.Write] *)
Definition Write (d : digest) (p : list Z) : digest :=
  fold_left write_byte p d.

(** [digest.checkSum]: one [0x80] byte, [pad] zero bytes, the length
    in bits as a little-endian 64-bit integer. *)
Definition checkSum (d : digest) : list Z :=
  let pad := wrap64 (55 - len d) mod 64 in
  let tmp := 0x80 :: repeat 0 (Z.to_nat pad)
               ++ le_put_uint64 (wrap64 (Z.shiftl (len d) 3)) in
  let '(a, b, c, e) := s (Write d tmp) in
  le_put_uint32 a ++ le_put_uint32 b ++ le_put_uint32 c ++ le_put_uint32 e.

(** [digest.Sum(in)] *)
Definition Sum (d : digest) (prefix : list Z) : list Z :=
  prefix ++ checkSum d.

End MD5.

(** * encoding/hex *)
Module Hex.

Definition hextable : string := "0123456789abcdef".

Definition digit (n : Z) : ascii :=
  match String.get (Z.to_nat n) hextable with
  | Some c => c
  | None => "0"%char
  end.

(** [hex.EncodeToString] *)
Fixpoint EncodeToString (src : list Z) : string :=
  match src with
  | [] => EmptyString
  | v :: src' =>
      String (digit (Z.shiftr v 4))
        (String (digit (Z.land v 0x0f)) (EncodeToString src'))
  end.

End Hex.

(** A Go slice expression [s[:n]] panics when [n] exceeds the length of
    [s]; a panic is [None]. *)
Definition slice_to (n : nat) (str : string) : option string :=
  if (n <=? String.length str)%nat then Some (substring 0 n str) else None.

(** [s[n:]] *)
Definition slice_from (n : nat) (str : string) : option string :=
  if (n <=? String.length str)%nat
  then Some (substring n (String.length str - n) str) else None.

(** * encoding/json: [Decoder.Decode] into the request struct

    [ShortUrlHandler] decodes the body into
    [struct { URL string `json:"url"` }].  The decoder first runs the
    scanner of [scanner.go] over the input to delimit the first JSON value
    ([readValue]); bytes after that value are never looked at.  It then
    walks the value, driven by the scanner's opcodes, and stores into the
    struct. *)
Module Json.

Definition ch (c : ascii) : Z := byte_of_ascii c.
Arguments ch c%_char.

Definition quote : Z := 34.
Definition backslash : Z := 92.

Inductive opcode :=
| scanContinue | scanBeginLiteral | scanBeginObject | scanObjectKey
| scanObjectValue | scanEndObject | scanBeginArray | scanArrayValue
| scanEndArray | scanSkipSpace | scanEnd | scanError.

Inductive pstate := parseObjectKey | parseObjectValue | parseArrayValue.

Inductive state :=
| stateBeginValueOrEmpty | stateBeginValue | stateBeginStringOrEmpty
| stateBeginString | stateEndValue | stateEndTop
| stateInString | stateInStringEsc | stateInStringEscU
| stateInStringEscU1 | stateInStringEscU12 | stateInStringEscU123
| stateNeg | state1 | state0 | stateDot | stateDot0
| stateE | stateESign | stateE0
| stateT | stateTr | stateTru
| stateF | stateFa | stateFal | stateFals
| stateN | stateNu | stateNul
| stateError.

(** The scanner: the current step function and the stack of enclosing
    composite values, innermost first. *)
Record scanner := Scanner {
  step : state;
  parseState : list pstate
}.

Definition maxNestingDepth : Z := 10000.

(** [scanner.reset] *)
Definition reset : scanner := {| step := stateBeginValue; parseState := [] |}.

Definition goto (sc : scanner) (st : state) : scanner :=
  {| step := st; parseState := parseState sc |}.

(** [scanner.error] *)
Definition error (sc : scanner) : scanner * opcode :=
  (goto sc stateError, scanError).

Definition isSpace (c : Z) : bool :=
  (c =? ch " ") || (c =? 9) || (c =? 13) || (c =? 10).

Definition isDigit (c : Z) : bool := (ch "0" <=? c) && (c <=? ch "9").

Definition isHex (c : Z) : bool :=
  isDigit c || ((ch "a" <=? c) && (c <=? ch "f"))
            || ((ch "A" <=? c) && (c <=? ch "F")).

(** [scanner.pushParseState] *)
Definition pushParseState (sc : scanner) (p : pstate) (next : state)
    (success : opcode) : scanner * opcode :=
  let stack := p :: parseState sc in
  if Z.of_nat (length stack) <=? maxNestingDepth
  then ({| step := next; parseState := stack |}, success)
  else ({| step := stateError; parseState := stack |}, scanError).

(** [scanner.popParseState] *)
Definition popParseState (sc : scanner) : scanner :=
  match parseState sc with
  | [] => sc
  | _ :: [] => {| step := stateEndTop; parseState := [] |}
  | _ :: rest => {| step := stateEndValue; parseState := rest |}
  end.

Definition do_stateEndTop (sc : scanner) (c : Z) : scanner * opcode :=
  if isSpace c then (sc, scanEnd) else (goto sc stateError, scanEnd).

Definition do_stateEndValue (sc : scanner) (c : Z) : scanner * opcode :=
  match parseState sc with
  | [] => do_stateEndTop (goto sc stateEndTop) c
  | ps :: rest =>
      if isSpace c then (goto sc stateEndValue, scanSkipSpace)
      else match ps with
      | parseObjectKey =>
          if c =? ch ":"
          then ({| step := stateBeginValue;
                   parseState := parseObjectValue :: rest |}, scanObjectKey)
          else error sc
      | parseObjectValue =>
          if c =? ch ","
          then ({| step := stateBeginString;
                   parseState := parseObjectKey :: rest |}, scanObjectValue)
          else if c =? ch "}" then (popParseState sc, scanEndObject)
          else error sc
      | parseArrayValue =>
          if c =? ch ","
          then (goto sc stateBeginValue, scanArrayValue)
          else if c =? ch "]" then (popParseState sc, scanEndArray)
          else error sc
      end
  end.

Definition do_stateBeginValue (sc : scanner) (c : Z) : scanner * opcode :=
  if isSpace c then (sc, scanSkipSpace)
  else if c =? ch "{"
    then pushParseState sc parseObjectKey stateBeginStringOrEmpty scanBeginObject
  else if c =? ch "["
    then pushParseState sc parseArrayValue stateBeginValueOrEmpty scanBeginArray
  else if c =? quote then (goto sc stateInString, scanBeginLiteral)
  else if c =? ch "-" then (goto sc stateNeg, scanBeginLiteral)
  else if c =? ch "0" then (goto sc state0, scanBeginLiteral)
  else if c =? ch "t" then (goto sc stateT, scanBeginLiteral)
  else if c =? ch "f" then (goto sc stateF, scanBeginLiteral)
  else if c =? ch "n" then (goto sc stateN, scanBeginLiteral)
  else if (ch "1" <=? c) && (c <=? ch "9") then (goto sc state1, scanBeginLiteral)
  else error sc.

Definition do_stateBeginValueOrEmpty (sc : scanner) (c : Z) : scanner * opcode :=
  if isSpace c then (sc, scanSkipSpace)
  else if c =? ch "]" then do_stateEndValue sc c
  else do_stateBeginValue sc c.

Definition do_stateBeginString (sc : scanner) (c : Z) : scanner * opcode :=
  if isSpace c then (sc, scanSkipSpace)
  else if c =? quote then (goto sc stateInString, scanBeginLiteral)
  else error sc.

Definition do_stateBeginStringOrEmpty (sc : scanner) (c : Z) : scanner * opcode :=
  if isSpace c then (sc, scanSkipSpace)
  else if c =? ch "}"
  then do_stateEndValue
         {| step := step sc;
            parseState := match parseState sc with
                          | [] => []
                          | _ :: rest => parseObjectValue :: rest
                          end |} c
  else do_stateBeginString sc c.

Definition do_stateInString (sc : scanner) (c : Z) : scanner * opcode :=
  if c =? quote then (goto sc stateEndValue, scanContinue)
  else if c =? backslash then (goto sc stateInStringEsc, scanContinue)
  else if c <? 0x20 then error sc
  else (sc, scanContinue).

Definition do_stateInStringEsc (sc : scanner) (c : Z) : scanner * opcode :=
  if (c =? ch "b") || (c =? ch "f") || (c =? ch "n") || (c =? ch "r")
     || (c =? ch "t") || (c =? backslash) || (c =? ch "/") || (c =? quote)
  then (goto sc stateInString, scanContinue)
  else if c =? ch "u" then (goto sc stateInStringEscU, scanContinue)
  else error sc.

(** The four hexadecimal digits of a [\u] escape, and the letters of
    [true], [false] and [null]: one expected byte, one next state. *)
Definition expect (ok : bool) (sc : scanner) (next : state) : scanner * opcode :=
  if ok then (goto sc next, scanContinue) else error sc.

Definition do_state0 (sc : scanner) (c : Z) : scanner * opcode :=
  if c =? ch "." then (goto sc stateDot, scanContinue)
  else if (c =? ch "e") || (c =? ch "E") then (goto sc stateE, scanContinue)
  else do_stateEndValue sc c.

Definition do_state1 (sc : scanner) (c : Z) : scanner * opcode :=
  if isDigit c then (goto sc state1, scanContinue) else do_state0 sc c.

Definition do_stateNeg (sc : scanner) (c : Z) : scanner * opcode :=
  if c =? ch "0" then (goto sc state0, scanContinue)
  else if (ch "1" <=? c) && (c <=? ch "9") then (goto sc state1, scanContinue)
  else error sc.

Definition do_stateDot0 (sc : scanner) (c : Z) : scanner * opcode :=
  if isDigit c then (sc, scanContinue)
  else if (c =? ch "e") || (c =? ch "E") then (goto sc stateE, scanContinue)
  else do_stateEndValue sc c.

Definition do_stateESign (sc : scanner) (c : Z) : scanner * opcode :=
  expect (isDigit c) sc stateE0.

Definition do_stateE (sc : scanner) (c : Z) : scanner * opcode :=
  if (c =? ch "+") || (c =? ch "-") then (goto sc stateESign, scanContinue)
  else do_stateESign sc c.

Definition do_stateE0 (sc : scanner) (c : Z) : scanner * opcode :=
  if isDigit c then (sc, scanContinue) else do_stateEndValue sc c.

(** [s.step(s, c)]: one byte through the current step function. *)
Definition scan_step (sc : scanner) (c : Z) : scanner * opcode :=
  match step sc with
  | stateBeginValueOrEmpty => do_stateBeginValueOrEmpty sc c
  | stateBeginValue => do_stateBeginValue sc c
  | stateBeginStringOrEmpty => do_stateBeginStringOrEmpty sc c
  | stateBeginString => do_stateBeginString sc c
  | stateEndValue => do_stateEndValue sc c
  | stateEndTop => do_stateEndTop sc c
  | stateInString => do_stateInString sc c
  | stateInStringEsc => do_stateInStringEsc sc c
  | stateInStringEscU => expect (isHex c) sc stateInStringEscU1
  | stateInStringEscU1 => expect (isHex c) sc stateInStringEscU12
  | stateInStringEscU12 => expect (isHex c) sc stateInStringEscU123
  | stateInStringEscU123 => expect (isHex c) sc stateInString
  | stateNeg => do_stateNeg sc c
  | state1 => do_state1 sc c
  | state0 => do_state0 sc c
  | stateDot => expect (isDigit c) sc stateDot0
  | stateDot0 => do_stateDot0 sc c
  | stateE => do_stateE sc c
  | stateESign => do_stateESign sc c
  | stateE0 => do_stateE0 sc c
  | stateT => expect (c =? ch "r") sc stateTr
  | stateTr => expect (c =? ch "u") sc stateTru
  | stateTru => expect (c =? ch "e") sc stateEndValue
  | stateF => expect (c =? ch "a") sc stateFa
  | stateFa => expect (c =? ch "l") sc stateFal
  | stateFal => expect (c =? ch "s") sc stateFals
  | stateFals => expect (c =? ch "e") sc stateEndValue
  | stateN => expect (c =? ch "u") sc stateNu
  | stateNu => expect (c =? ch "l") sc stateNul
  | stateNul => expect (c =? ch "l") sc stateEndValue
  | stateError => (sc, scanError)
  end.

Inductive decode_error := SyntaxError | EOF | ErrUnexpectedEOF | UnmarshalTypeError.

(** [Decoder.readValue]: the bytes of the first JSON value of the input,
    each with the opcode the scanner gave it.  The value ends before the
    first byte that yields [scanEnd], or with the bracket that closes a
    top-level object or array; at the end of the input the scanner is
    fed one space to find out whether a value is complete. *)
Fixpoint readValue (sc : scanner) (buf : list Z) (seen : bool)
    (acc : list (Z * opcode)) : list (Z * opcode) + decode_error :=
  match buf with
  | [] =>
      match snd (scan_step sc (ch " ")) with
      | scanEnd => inl (rev acc)
      | _ => inr (if seen then ErrUnexpectedEOF else EOF)
      end
  | c :: buf' =>
      let '(sc', op) := scan_step sc c in
      let seen' := seen || negb (isSpace c) in
      match op with
      | scanEnd => inl (rev acc)
      | scanEndObject | scanEndArray =>
          match snd (do_stateEndValue sc' (ch " ")) with
          | scanEnd => inl (rev ((c, op) :: acc))
          | _ => readValue sc' buf' seen' ((c, op) :: acc)
          end
      | scanError => inr SyntaxError
      | _ => readValue sc' buf' seen' ((c, op) :: acc)
      end
  end.

(** The value as the decoder sees it when it rescans: literals (a
    [scanBeginLiteral] byte and the [scanContinue] bytes after it) and
    the structural opcodes; white space is dropped. *)
Inductive token :=
| TLit (item : list Z)
| TBeginObject | TObjectKey | TObjectValue | TEndObject
| TBeginArray | TArrayValue | TEndArray.

Definition flush (lit : option (list Z)) : list token :=
  match lit with
  | Some item => [TLit (rev item)]
  | None => []
  end.

Fixpoint tokens (evs : list (Z * opcode)) (lit : option (list Z)) : list token :=
  match evs with
  | [] => flush lit
  | (c, op) :: evs' =>
      match op with
      | scanBeginLiteral => flush lit ++ tokens evs' (Some [c])
      | scanContinue =>
          tokens evs' (match lit with Some item => Some (c :: item) | None => None end)
      | scanBeginObject => flush lit ++ TBeginObject :: tokens evs' None
      | scanObjectKey => flush lit ++ TObjectKey :: tokens evs' None
      | scanObjectValue => flush lit ++ TObjectValue :: tokens evs' None
      | scanEndObject => flush lit ++ TEndObject :: tokens evs' None
      | scanBeginArray => flush lit ++ TBeginArray :: tokens evs' None
      | scanArrayValue => flush lit ++ TArrayValue :: tokens evs' None
      | scanEndArray => flush lit ++ TEndArray :: tokens evs' None
      | scanSkipSpace | scanEnd | scanError => flush lit ++ tokens evs' None
      end
  end.

(** ** unicode/utf8 and unicode/utf16 *)

Definition RuneError : Z := 0xFFFD.

Definition isCont (b : Z) : bool := (0x80 <=? b) && (b <=? 0xBF).

(** [utf8.DecodeRune]: the rune at the head of [p] and its width; an
    ill-formed or truncated sequence is [(RuneError, 1)]. *)
Definition DecodeRune (p : list Z) : Z * nat :=
  match p with
  | [] => (RuneError, 0%nat)
  | p0 :: t =>
      if p0 <? 0x80 then (p0, 1%nat)
      else if (p0 <? 0xC2) || (0xF4 <? p0) then (RuneError, 1%nat)
      else
        let sz := if p0 <? 0xE0 then 2 else if p0 <? 0xF0 then 3 else 4 in
        let lo := if p0 =? 0xE0 then 0xA0 else if p0 =? 0xF0 then 0x90 else 0x80 in
        let hi := if p0 =? 0xED then 0x9F else if p0 =? 0xF4 then 0x8F else 0xBF in
        match t with
        | b1 :: t1 =>
            if (b1 <? lo) || (hi <? b1) then (RuneError, 1%nat)
            else if sz =? 2
            then (Z.lor (Z.shiftl (Z.land p0 0x1F) 6) (Z.land b1 0x3F), 2%nat)
            else match t1 with
            | b2 :: t2 =>
                if negb (isCont b2) then (RuneError, 1%nat)
                else if sz =? 3
                then (Z.lor (Z.shiftl (Z.land p0 0x0F) 12)
                        (Z.lor (Z.shiftl (Z.land b1 0x3F) 6) (Z.land b2 0x3F)),
                      3%nat)
                else match t2 with
                | b3 :: _ =>
                    if negb (isCont b3) then (RuneError, 1%nat)
                    else (Z.lor (Z.shiftl (Z.land p0 0x07) 18)
                            (Z.lor (Z.shiftl (Z.land b1 0x3F) 12)
                               (Z.lor (Z.shiftl (Z.land b2 0x3F) 6)
                                      (Z.land b3 0x3F))),
                          4%nat)
                | [] => (RuneError, 1%nat)
                end
            | [] => (RuneError, 1%nat)
            end
        | [] => (RuneError, 1%nat)
        end
  end.

(** [utf8.EncodeRune] *)
Definition EncodeRune (r : Z) : list Z :=
  let three (r : Z) :=
    [ Z.lor 0xE0 (Z.shiftr r 12);
      Z.lor 0x80 (Z.land (Z.shiftr r 6) 0x3F);
      Z.lor 0x80 (Z.land r 0x3F) ] in
  if (0 <=? r) && (r <=? 0x7F) then [r]
  else if (0 <=? r) && (r <=? 0x7FF)
  then [ Z.lor 0xC0 (Z.shiftr r 6); Z.lor 0x80 (Z.land r 0x3F) ]
  else if (r <? 0) || (0x10FFFF <? r) || ((0xD800 <=? r) && (r <=? 0xDFFF))
  then three RuneError
  else if r <=? 0xFFFF then three r
  else [ Z.lor 0xF0 (Z.shiftr r 18);
         Z.lor 0x80 (Z.land (Z.shiftr r 12) 0x3F);
         Z.lor 0x80 (Z.land (Z.shiftr r 6) 0x3F);
         Z.lor 0x80 (Z.land r 0x3F) ].

(** [utf16.IsSurrogate] *)
Definition IsSurrogate (r : Z) : bool := (0xD800 <=? r) && (r <? 0xE000).

(** [utf16.DecodeRune] *)
Definition DecodeSurrogates (r1 r2 : Z) : Z :=
  if (0xD800 <=? r1) && (r1 <? 0xDC00) && (0xDC00 <=? r2) && (r2 <? 0xE000)
  then Z.lor (Z.shiftl (r1 - 0xD800) 10) (r2 - 0xDC00) + 0x10000
  else RuneError.

Definition hexval (c : Z) : option Z :=
  if isDigit c then Some (c - ch "0")
  else if (ch "a" <=? c) && (c <=? ch "f") then Some (c - ch "a" + 10)
  else if (ch "A" <=? c) && (c <=? ch "F") then Some (c - ch "A" + 10)
  else None.

(** [getu4]: the value of a six-byte [\uXXXX] escape, [-1] otherwise. *)
Definition getu4 (p : list Z) : Z :=
  match p with
  | b :: u :: h1 :: h2 :: h3 :: h4 :: _ =>
      if (b =? backslash) && (u =? ch "u") then
        match hexval h1, hexval h2, hexval h3, hexval h4 with
        | Some a, Some b, Some c, Some d => ((a * 16 + b) * 16 + c) * 16 + d
        | _, _, _, _ => -1
        end
      else -1
  | _ => -1
  end.

(** The body of [unquoteBytes], after the surrounding quotes are removed:
    escapes are replaced, and bytes that are not well-formed UTF-8 become
    U+FFFD.  [None] is the [ok = false] result. *)
Fixpoint unquote_body (p : list Z) : option (list Z) :=
  match p with
  | [] => Some []
  | c :: t =>
      if c =? backslash then
        match t with
        | [] => None
        | e :: t1 =>
            if (e =? quote) || (e =? backslash) || (e =? ch "/") || (e =? 39)
            then cons e <$> unquote_body t1
            else if e =? ch "b" then cons 8 <$> unquote_body t1
            else if e =? ch "f" then cons 12 <$> unquote_body t1
            else if e =? ch "n" then cons 10 <$> unquote_body t1
            else if e =? ch "r" then cons 13 <$> unquote_body t1
            else if e =? ch "t" then cons 9 <$> unquote_body t1
            else if e =? ch "u" then
              let rr := getu4 p in
              if rr <? 0 then None
              else match t1 with
              | _ :: _ :: _ :: _ :: t5 =>
                  if IsSurrogate rr then
                    let dec := DecodeSurrogates rr (getu4 t5) in
                    if negb (dec =? RuneError) then
                      match t5 with
                      | _ :: _ :: _ :: _ :: _ :: _ :: t11 =>
                          app (EncodeRune dec) <$> unquote_body t11
                      | _ => None
                      end
                    else app (EncodeRune RuneError) <$> unquote_body t5
                  else app (EncodeRune rr) <$> unquote_body t5
              | _ => None
              end
            else None
        end
      else if (c =? quote) || (c <? 0x20) then None
      else if c <? 0x80 then cons c <$> unquote_body t
      else
        let '(rr, size) := DecodeRune p in
        match size, t with
        | 2%nat, _ :: t2 => app (EncodeRune rr) <$> unquote_body t2
        | 3%nat, _ :: _ :: t3 => app (EncodeRune rr) <$> unquote_body t3
        | 4%nat, _ :: _ :: _ :: t4 => app (EncodeRune rr) <$> unquote_body t4
        | _, _ => app (EncodeRune rr) <$> unquote_body t
        end
  end.

(** [unquoteBytes] *)
Definition unquoteBytes (item : list Z) : option (list Z) :=
  match item with
  | q :: rest =>
      match rev rest with
      | q' :: inner =>
          if (q =? quote) && (q' =? quote) then unquote_body (rev inner) else None
      | [] => None
      end
  | [] => None
  end.

(** The struct has the single field [URL], named [url] in JSON.  A key
    selects it when it is [url] exactly or under case folding; no
    character outside ASCII folds to [u], [r] or [l], so folding is the
    ASCII one. *)
Definition upper (c : Z) : Z :=
  if (ch "a" <=? c) && (c <=? ch "z") then c - 32 else c.

Definition is_url_field (key : list Z) : bool :=
  match key with
  | [a; b; c] =>
      (upper a =? ch "U") && (upper b =? ch "R") && (upper c =? ch "L")
  | _ => false
  end.

(** What the decoder has done so far: the field of the target struct and
    the first type error met ([d.savedError]). *)
Record decodeState := DecodeState {
  URL : string;
  savedError : option decode_error
}.

(** [d.saveError] *)
Definition saveError (d : decodeState) (e : decode_error) : decodeState :=
  match savedError d with
  | Some _ => d
  | None => {| URL := URL d; savedError := Some e |}
  end.

(** [d.literalStore] into the string field: a JSON string is stored,
    [null] leaves the field alone, a number or a boolean is a type
    error.  [None] is the decoder's panic on a literal it cannot unquote. *)
Definition literalStore_field (item : list Z) (d : decodeState) : option decodeState :=
  match item with
  | [] => Some (saveError d UnmarshalTypeError)
  | c :: _ =>
      if c =? ch "n" then Some d
      else if (c =? ch "t") || (c =? ch "f") then Some (saveError d UnmarshalTypeError)
      else if c =? quote then
        match unquoteBytes item with
        | Some bs => Some {| URL := string_of_bytes bs; savedError := savedError d |}
        | None => None
        end
      else Some (saveError d UnmarshalTypeError)
  end.

(** [d.literalStore] into the struct itself: only [null] is accepted,
    and it changes nothing. *)
Definition literalStore_struct (item : list Z) (d : decodeState) : option decodeState :=
  match item with
  | [] => Some (saveError d UnmarshalTypeError)
  | c :: _ =>
      if c =? ch "n" then Some d
      else if c =? quote then
        match unquoteBytes item with
        | Some _ => Some (saveError d UnmarshalTypeError)
        | None => None
        end
      else Some (saveError d UnmarshalTypeError)
  end.

(** Where [d.object] stands in the members of the top-level object. *)
Inductive position :=
| AtKey
| AtColon (field : bool)
| AtValue (field : bool)
| Skipping (depth : nat)
| AfterValue.

(** [d.object] for the struct, after the opening brace: keys are
    unquoted and matched against the field, the value of a matching key
    is stored, any other value is skipped ([d.skip]).  An object or array
    as the value of the field is a type error.  [None] is the panic of a
    decoder out of step with the scanner. *)
Fixpoint object (pos : position) (d : decodeState) (ts : list token)
    : option decodeState :=
  match ts with
  | [] => None
  | t :: ts' =>
      match pos, t with
      | AtKey, TEndObject => Some d
      | AtKey, TLit item =>
          match unquoteBytes item with
          | Some key => object (AtColon (is_url_field key)) d ts'
          | None => None
          end
      | AtColon f, TObjectKey => object (AtValue f) d ts'
      | AtValue f, TLit item =>
          if f then
            match literalStore_field item d with
            | Some d' => object AfterValue d' ts'
            | None => None
            end
          else object AfterValue d ts'
      | AtValue f, TBeginObject | AtValue f, TBeginArray =>
          object (Skipping 0) (if f then saveError d UnmarshalTypeError else d) ts'
      | Skipping n, TBeginObject | Skipping n, TBeginArray =>
          object (Skipping (S n)) d ts'
      | Skipping (S n), TEndObject | Skipping (S n), TEndArray =>
          object (Skipping n) d ts'
      | Skipping O, TEndObject | Skipping O, TEndArray =>
          object AfterValue d ts'
      | Skipping n, _ => object (Skipping n) d ts'
      | AfterValue, TObjectValue => object AtKey d ts'
      | AfterValue, TEndObject => Some d
      | _, _ => None
      end
  end.

(** [d.value] at the top level, into the struct. *)
Definition value (d : decodeState) (ts : list token) : option decodeState :=
  match ts with
  | TLit item :: _ => literalStore_struct item d
  | TBeginObject :: ts' => object AtKey d ts'
  | TBeginArray :: _ => Some (saveError d UnmarshalTypeError)
  | _ => None
  end.

Inductive outcome :=
| Decoded (url : string)
| Failed (e : decode_error).

(** [json.NewDecoder(body).Decode(&data)] with [data] zero-valued:
    [Decoded u] when [Decode] returns [nil], [u] being [data.URL]
    afterwards; [Failed e] when it returns an error; [None] when it
    panics. *)
Definition Decode (body : string) : option outcome :=
  match readValue reset (bytes_of_string body) false [] with
  | inr e => Some (Failed e)
  | inl evs =>
      match value {| URL := EmptyString; savedError := None |} (tokens evs None) with
      | Some d =>
          match savedError d with
          | Some e => Some (Failed e)
          | None => Some (Decoded (URL d))
          end
      | None => None
      end
  end.

End Json.

(** * strings: the functions of package [strings] that [net/url] and
    [http.Redirect] call, here with a one-byte separator *)
Module Strings.

(** [strings.Cut(s, sep)]: the text before the first [sep], the text
    after it, and whether there is one. *)
Fixpoint Cut (s : string) (sep : ascii) : string * string * bool :=
  match s with
  | EmptyString => (EmptyString, EmptyString, false)
  | String c s' =>
      if Ascii.eqb c sep then (EmptyString, s', true)
      else let '(before, after, found) := Cut s' sep in
           (String c before, after, found)
  end.

(** [strings.Contains(s, sep)] *)
Fixpoint Contains (s : string) (sep : ascii) : bool :=
  match s with
  | EmptyString => false
  | String c s' => Ascii.eqb c sep || Contains s' sep
  end.

(** [strings.LastIndex(s, sep)], as the two sides [s[:i]] and [s[i+1:]]
    of the last [sep]; [None] is the index -1. *)
Fixpoint CutLast (s : string) (sep : ascii) : option (string * string) :=
  match s with
  | EmptyString => None
  | String c s' =>
      match CutLast s' sep with
      | Some (before, after) => Some (String c before, after)
      | None => if Ascii.eqb c sep then Some (EmptyString, s') else None
      end
  end.

(** [strings.HasPrefix(s, prefix)] *)
Definition HasPrefix (s prefix : string) : bool := String.prefix prefix s.

(** [strings.HasSuffix(s, "/")] *)
Fixpoint HasSuffixSlash (s : string) : bool :=
  match s with
  | EmptyString => false
  | String c EmptyString => Ascii.eqb c "/"
  | String _ s' => HasSuffixSlash s'
  end.

End Strings.

(** * net/url: the references [url.Parse] reads as relative

    [http.Redirect] asks [url.Parse] one thing: whether the URL parses
    without error to a reference with neither scheme nor host. *)
Module Url.

(** [stringContainsCTLByte] *)
Fixpoint stringContainsCTLByte (s : string) : bool :=
  match s with
  | EmptyString => false
  | String c s' =>
      let b := byte_of_ascii c in
      (b <? 32) || (b =? 127) || stringContainsCTLByte s'
  end.

Definition is_letter (c : ascii) : bool :=
  let b := byte_of_ascii c in
  ((97 <=? b) && (b <=? 122)) || ((65 <=? b) && (b <=? 90)).

Definition is_digit (c : ascii) : bool :=
  let b := byte_of_ascii c in (48 <=? b) && (b <=? 57).

(** What [getScheme] returns: the error, or [scheme] and [path]. *)
Inductive scheme_result :=
| SchemeError
| Scheme (scheme path : string).

(** The loop of [getScheme] at index [i], [s] being [rawURL[i:]]. *)
Fixpoint getScheme_loop (rawURL : string) (i : nat) (s : string)
    : scheme_result :=
  match s with
  | EmptyString => Scheme EmptyString rawURL
  | String c s' =>
      if is_letter c then getScheme_loop rawURL (S i) s'
      else if is_digit c || Ascii.eqb c "+" || Ascii.eqb c "-"
              || Ascii.eqb c "."
      then match i with
           | O => Scheme EmptyString rawURL
           | _ => getScheme_loop rawURL (S i) s'
           end
      else if Ascii.eqb c ":"
      then match i with
           | O => SchemeError
           | _ => Scheme (String.substring 0 i rawURL) s'
           end
      else Scheme EmptyString rawURL
  end.

(** [getScheme] *)
Definition getScheme (rawURL : string) : scheme_result :=
  getScheme_loop rawURL 0 rawURL.

(** [ishex] *)
Definition ishex (c : ascii) : bool :=
  let b := byte_of_ascii c in
  ((48 <=? b) && (b <=? 57)) || ((97 <=? b) && (b <=? 102))
  || ((65 <=? b) && (b <=? 70)).

(** Whether [unescape(s, mode)] returns no error, [mode] being that of a
    path, of a fragment or of a user name or password: every percent sign
    is followed by two hexadecimal digits. *)
Fixpoint unescape_ok (s : string) : bool :=
  match s with
  | EmptyString => true
  | String c s' =>
      if Ascii.eqb c "%"
      then match s' with
           | String h1 (String h2 s'') =>
               ishex h1 && ishex h2 && unescape_ok s''
           | _ => false
           end
      else unescape_ok s'
  end.

(** [validUserinfo] *)
Fixpoint validUserinfo (s : string) : bool :=
  match s with
  | EmptyString => true
  | String r s' =>
      (is_letter r || is_digit r || Strings.Contains "-._:~!$&'()*+,;=%@" r)
      && validUserinfo s'
  end.

(** Whether [parseAuthority(authority)] returns no error and the empty
    host.  ([parseHost] either refuses a host that is not empty or returns
    one that is not empty.) *)
Definition authority_without_host (authority : string) : bool :=
  match Strings.CutLast authority "@" with
  | None => String.eqb authority EmptyString
  | Some (userinfo, host) =>
      String.eqb host EmptyString
      && validUserinfo userinfo && unescape_ok userinfo
  end.

(** Whether [parse(rawURL, false)] returns no error and a URL whose
    [Scheme] and [Host] are empty. *)
Definition parse_relative (rawURL : string) : bool :=
  if stringContainsCTLByte rawURL then false
  else if String.eqb rawURL "*" then true
  else
    match getScheme rawURL with
    | SchemeError => false
    | Scheme scheme rest =>
        if negb (String.eqb scheme EmptyString) then false
        else
          let '(rest, _, _) := Strings.Cut rest "?" in
          if negb (Strings.HasPrefix rest "/")
             && (let '(segment, _, _) := Strings.Cut rest "/" in
                 Strings.Contains segment ":")
          then false
          else if negb (Strings.HasPrefix rest "///")
                  && Strings.HasPrefix rest "//"
          then
            let '(authority, path, found) :=
              Strings.Cut
                (String.substring 2 (String.length rest - 2)%nat rest) "/" in
            authority_without_host authority
            && unescape_ok (if found then String "/" path else EmptyString)
          else unescape_ok rest
    end.

(** Whether [url.Parse(rawURL)] returns no error and a URL whose [Scheme]
    and [Host] are empty. *)
Definition Parse_relative (rawURL : string) : bool :=
  let '(u, frag, _) := Strings.Cut rawURL "#" in
  parse_relative u && unescape_ok frag.

End Url.

(** * path *)
Module GoPath.

(** [path.Split(path)], the directory with its final slash first. *)
Definition Split (path : string) : string * string :=
  match Strings.CutLast path "/" with
  | Some (dir, file) => (dir +:+ "/", file)
  | None => (EmptyString, path)
  end.

(** [Clean] at a [..] element that can go back, on the bytes written so
    far with the last one first: [out.w--], and again as long as
    [out.w > dotdot] and the byte just given up is no slash. *)
Fixpoint backtrack (out : list ascii) (dotdot : nat) : list ascii :=
  match out with
  | [] => []
  | c :: out' =>
      if (dotdot <? length out')%nat && negb (Ascii.eqb c "/")
      then backtrack out' dotdot
      else out'
  end.

(** [r == n || path[r] == '/'], [s] being [path[r:]] *)
Definition at_end_or_slash (s : string) : bool :=
  match s with
  | EmptyString => true
  | String c _ => Ascii.eqb c "/"
  end.

(** The slash [Clean] writes before a path element that is not the first. *)
Definition with_slash (rooted : bool) (out : list ascii) : list ascii :=
  if (rooted && negb (length out =? 1)%nat)
     || (negb rooted && negb (length out =? 0)%nat)
  then "/"%char :: out else out.

(** The loop of [Clean] on [s = path[r:]]: [out] are the bytes written so
    far, the last one first, and [copying] holds inside the inner loop
    that copies a path element up to the next slash. *)
Fixpoint Clean_loop (rooted : bool) (s : string) (out : list ascii)
    (dotdot : nat) (copying : bool) : list ascii :=
  match s with
  | EmptyString => out
  | String c s' =>
      if copying then
        if Ascii.eqb c "/" then Clean_loop rooted s' out dotdot false
        else Clean_loop rooted s' (c :: out) dotdot true
      else if Ascii.eqb c "/" then Clean_loop rooted s' out dotdot false
      else if Ascii.eqb c "." && at_end_or_slash s'
      then Clean_loop rooted s' out dotdot false
      else
        match s' with
        | String c' s'' =>
            if Ascii.eqb c "." && Ascii.eqb c' "." && at_end_or_slash s''
            then
              if (dotdot <? length out)%nat
              then Clean_loop rooted s'' (backtrack out dotdot) dotdot false
              else if negb rooted
              then
                let out :=
                  "."%char :: "."%char
                    :: (if (0 <? length out)%nat then "/"%char :: out
                        else out) in
                Clean_loop rooted s'' out (length out) false
              else Clean_loop rooted s'' out dotdot false
            else Clean_loop rooted s' (c :: with_slash rooted out) dotdot true
        | EmptyString =>
            Clean_loop rooted s' (c :: with_slash rooted out) dotdot true
        end
  end.

(** [path.Clean] *)
Definition Clean (path : string) : string :=
  match path with
  | EmptyString => "."
  | String c s' =>
      let rooted := Ascii.eqb c "/" in
      let out :=
        if rooted then Clean_loop true s' ["/"%char] 1 false
        else Clean_loop false path [] 0 false in
      match out with
      | [] => "."
      | _ => string_of_list_ascii (rev out)
      end
  end.

End GoPath.

(** * net/http: what a handler sees and what it answers *)

(** [time.Time]: an instant, counted from the zero [Time]. *)
Definition Time := Z.

Record Request := {
  Method : string;            (* r.Method *)
  Path : string;              (* r.URL.Path *)
  Host : string;              (* r.Host *)
  HeaderGet : string -> string; (* r.Header.Get *)
  Body : string               (* the bytes read from r.Body *)
}.

(** The answer of a handler, as what it writes to the
    [http.ResponseWriter]. *)
Inductive Response :=
| http_Error (error : string) (code : Z)
    (* http.Error(w, error, code) *)
| http_Redirect (location : string) (code : Z)
    (* what http.Redirect puts on w: w.Header().Set("Location", location);
       w.WriteHeader(code).  The short HTML body that repeats the link is
       not recorded. *)
| json_short_url (contentType : string) (code : Z) (ShortURL : string)
    (* w.Header().Set("Content-Type", contentType); w.WriteHeader(code);
       json.NewEncoder(w).Encode(struct{ShortURL}) *)
| text_body (body : string).
    (* fmt.Fprintf(w, body) *)

Definition MethodPost : string := "POST".
Definition StatusOK : Z := 200.
Definition StatusCreated : Z := 201.
Definition StatusFound : Z := 302.
Definition StatusBadRequest : Z := 400.
Definition StatusNotFound : Z := 404.
Definition StatusMethodNotAllowed : Z := 405.
Definition StatusInternalServerError : Z := 500.

Definition StatusCode (w : Response) : Z :=
  match w with
  | http_Error _ code => code
  | http_Redirect _ code => code
  | json_short_url _ code _ => code
  | text_body _ => StatusOK
  end.

(** [http.Redirect] *)
Module Http.

(** [hexEscapeNonASCII]: a byte from 0x80 on becomes a percent sign and
    its two digits in base 16. *)
Fixpoint hexEscapeNonASCII (s : string) : string :=
  match s with
  | EmptyString => EmptyString
  | String c s' =>
      let b := byte_of_ascii c in
      if 128 <=? b
      then String "%" (String (Hex.digit (b / 16))
                         (String (Hex.digit (b mod 16))
                            (hexEscapeNonASCII s')))
      else String c (hexEscapeNonASCII s')
  end.

(** The URL [Redirect] ends up with: a reference that [url.Parse] reads
    without scheme and host is made absolute on the directory of the
    path of the request and cleaned, its query kept; any other URL is
    left as it is. *)
Definition target (oldpath url : string) : string :=
  if Url.Parse_relative url then
    let oldpath := if String.eqb oldpath EmptyString then "/" else oldpath in
    let url :=
      match url with
      | String "/" _ => url
      | _ => let '(olddir, _) := GoPath.Split oldpath in olddir +:+ url
      end in
    let '(url, query) :=
      let '(before, after, found) := Strings.Cut url "?" in
      if found then (before, String "?" after) else (url, EmptyString) in
    let trailing := Strings.HasSuffixSlash url in
    let url := GoPath.Clean url in
    let url :=
      if trailing && negb (Strings.HasSuffixSlash url)
      then url +:+ "/" else url in
    url +:+ query
  else url.

(** The [Location] header [Redirect] sets. *)
Definition Location (oldpath url : string) : string :=
  hexEscapeNonASCII (target oldpath url).

(** [http.Redirect(w, r, url, code)] *)
Definition Redirect (r : Request) (url : string) (code : Z) : Response :=
  http_Redirect (Location (Path r) url) code.

End Http.

(** * main.go: the in-memory service *)
Module Mem.

Record URL := {
  ID : string;
  OriginalURL : string;
  ShortURL : string;
  CreationDate : Time
}.

(** [URL{}] *)
Definition zeroURL : URL :=
  {| ID := ""; OriginalURL := ""; ShortURL := ""; CreationDate := 0 |}.

(** [generateShortURL]; [None] is the panic of [hash[:8]] out of range. *)
Definition generateShortURL (OriginalURL : string) : option string :=
  let hasher := MD5.New in
  let hasher := MD5.Write hasher (bytes_of_string OriginalURL) in
  let data := MD5.Sum hasher [] in
  let hash := Hex.EncodeToString data in
  slice_to 8 hash.

(** [createURL], with the global [urlDB] passed in and out and the value
    of [time.Now()] as [now]. *)
Definition createURL (now : Time) (originalURL : string)
    (urlDB : gmap string URL) : option (string * gmap string URL) :=
  shortURL ← generateShortURL originalURL;
  let id := shortURL in
  Some (shortURL,
        <[id := {| ID := id;
                   OriginalURL := originalURL;
                   ShortURL := shortURL;
                   CreationDate := now |}]> urlDB).

(** [getURL]: the record and the error ([None] for [nil]). *)
Definition getURL (id : string) (urlDB : gmap string URL) : URL * option string :=
  match urlDB !! id with
  | None => (zeroURL, Some "URL not found")
  | Some url => (url, None)
  end.

(** [handler] *)
Definition handler (r : Request) : Response :=
  text_body "Welcome to the URL Shortener!".

(** [ShortUrlHandler] *)
Definition ShortUrlHandler (now : Time) (r : Request)
    (urlDB : gmap string URL) : option (Response * gmap string URL) :=
  if negb (String.eqb (Method r) MethodPost)
  then Some (http_Error "Invalid request method" StatusMethodNotAllowed, urlDB)
  else
    data ← Json.Decode (Body r);
    match data with
    | Json.Failed _ =>
        Some (http_Error "Invalid request body" StatusBadRequest, urlDB)
    | Json.Decoded url =>
        '(shortURL_, urlDB') ← createURL now url urlDB;
        let fullShortURL := "http://localhost:3000/redirect/" +:+ shortURL_ in
        Some (json_short_url "application/json" StatusCreated fullShortURL,
              urlDB')
    end.

(** [redirectURLHandler]; [None] is the panic of the slice expression on
    a path shorter than the prefix. *)
Definition redirectURLHandler (r : Request) (urlDB : gmap string URL)
    : option Response :=
  id ← slice_from (String.length "/redirect/") (Path r);
  let '(url, err) := getURL id urlDB in
  match err with
  | Some _ => Some (http_Error "URL not found" StatusNotFound)
  | None => Some (Http.Redirect r (OriginalURL url) StatusFound)
  end.

(** The two store operations, and a run of them from a given store. *)
Inductive op :=
| Create (now : Time) (originalURL : string)
| Get (id : string).

Definition exec (urlDB : gmap string URL) (o : op) : option (gmap string URL) :=
  match o with
  | Create now u => snd <$> createURL now u urlDB
  | Get id => let _ := getURL id urlDB in Some urlDB
  end.

Fixpoint run (ops : list op) (urlDB : gmap string URL) : option (gmap string URL) :=
  match ops with
  | [] => Some urlDB
  | o :: ops' => urlDB' ← exec urlDB o; run ops' urlDB'
  end.

End Mem.

(** * The PostgreSQL service

    The same service over the table
    [urls (id VARCHAR(8) PRIMARY KEY, original_url TEXT NOT NULL,
    creation_date TIMESTAMPTZ NOT NULL DEFAULT NOW())].
    The table is a finite map from [id] to the other two columns.  Whether
    the connection or the server fails on a statement is decided outside
    the program: it is the input [fault] of every database call. *)
Module Pg.

Record row := { original_url : string; creation_date : Time }.

(** An error of [database/sql]: a [*pgconn.PgError] with its SQLSTATE
    code, or anything else (a lost connection, a cancelled context). *)
Inductive sql_error :=
| PgError (Code : string)
| ConnError (msg : string).

Definition unique_violation : string := "23505".

(** [db.ExecContext(ctx, "INSERT INTO urls (id, original_url) VALUES ($1, $2)", id, url)]:
    the primary key rejects a second row with the same [id]. *)
Definition ExecInsert (fault : option sql_error) (now : Time)
    (id url : string) (urls : gmap string row)
    : gmap string row * option sql_error :=
  match fault with
  | Some e => (urls, Some e)
  | None =>
      match urls !! id with
      | Some _ => (urls, Some (PgError unique_violation))
      | None =>
          (<[id := {| original_url := url; creation_date := now |}]> urls, None)
      end
  end.

(** The outcome of
    [db.QueryRowContext(ctx, "SELECT original_url FROM urls WHERE id = $1", id).Scan(&originalURL)]. *)
Inductive scan_result :=
| Scanned (originalURL : string)
| ErrNoRows
| ScanError (e : sql_error).

Definition QueryRow (fault : option sql_error) (id : string)
    (urls : gmap string row) : scan_result :=
  match fault with
  | Some e => ScanError e
  | None =>
      match urls !! id with
      | Some r => Scanned (original_url r)
      | None => ErrNoRows
      end
  end.

(** The errors the store functions return to the handlers. *)
Inductive store_error :=
| SaveFailed (cause : sql_error)      (* "failed to save to database: %w" *)
| NotFound (id : string)              (* "URL not found for ID: %s" *)
| RetrieveFailed (cause : sql_error). (* "error retrieving from database: %w" *)

Definition generateShortURL (originalURL : string) : option string :=
  let hasher := MD5.New in
  let hasher := MD5.Write hasher (bytes_of_string originalURL) in
  slice_to 8 (Hex.EncodeToString (MD5.Sum hasher [])).

(** [createURL] *)
Definition createURL (fault : option sql_error) (now : Time)
    (originalURL : string) (urls : gmap string row)
    : option (string * option store_error * gmap string row) :=
  shortURL ← generateShortURL originalURL;
  let '(urls', err) := ExecInsert fault now shortURL originalURL urls in
  match err with
  | Some e =>
      match e with
      | PgError code =>
          if String.eqb code unique_violation
          then Some (shortURL, None, urls')
          else Some (EmptyString, Some (SaveFailed e), urls')
      | ConnError _ => Some (EmptyString, Some (SaveFailed e), urls')
      end
  | None => Some (shortURL, None, urls')
  end.

(** [getURL] *)
Definition getURL (fault : option sql_error) (id : string)
    (urls : gmap string row) : string * option store_error :=
  match QueryRow fault id urls with
  | Scanned originalURL => (originalURL, None)
  | ErrNoRows => (EmptyString, Some (NotFound id))
  | ScanError e => (EmptyString, Some (RetrieveFailed e))
  end.

(** [ShortUrlHandler] *)
Definition ShortUrlHandler (fault : option sql_error) (now : Time)
    (r : Request) (urls : gmap string row)
    : option (Response * gmap string row) :=
  if negb (String.eqb (Method r) MethodPost)
  then Some (http_Error "Invalid request method" StatusMethodNotAllowed, urls)
  else
    data ← Json.Decode (Body r);
    match data with
    | Json.Failed _ =>
        Some (http_Error
                "Invalid request body: please provide a JSON object with a 'url' key"
                StatusBadRequest, urls)
    | Json.Decoded url =>
        '(shortURL_ID, err, urls') ← createURL fault now url urls;
        match err with
        | Some _ =>
            Some (http_Error "Internal server error" StatusInternalServerError,
                  urls')
        | None =>
            let host := Host r in
            let scheme :=
              if String.eqb (HeaderGet r "X-Forwarded-Proto") "https"
              then "https" else "http" in
            let fullShortURL :=
              scheme +:+ "://" +:+ host +:+ "/r/" +:+ shortURL_ID in
            Some (json_short_url "application/json" StatusCreated fullShortURL,
                  urls')
        end
    end.

(** [redirectURLHandler] *)
Definition redirectURLHandler (fault : option sql_error) (r : Request)
    (urls : gmap string row) : option Response :=
  id ← slice_from (String.length "/r/") (Path r);
  let '(originalURL, err) := getURL fault id urls in
  match err with
  | Some _ => Some (http_Error "Link not found or has expired" StatusNotFound)
  | None => Some (Http.Redirect r originalURL StatusFound)
  end.

End Pg.

(** * The PostgreSQL service, second revision

    The other PostgreSQL [main] of the repository: the same statements on
    the same table, other error texts, and a handler for the root path. *)
Module Pg2.

Inductive store_error :=
| SaveFailed (cause : Pg.sql_error)      (* "failed to save to database: %w" *)
| NotFound                               (* "URL not found" *)
| RetrieveFailed (cause : Pg.sql_error). (* "error retrieving from database: %w" *)

Definition generateShortURL (originalURL : string) : option string :=
  let hasher := MD5.New in
  let hasher := MD5.Write hasher (bytes_of_string originalURL) in
  slice_to 8 (Hex.EncodeToString (MD5.Sum hasher [])).

(** [createURL] *)
Definition createURL (fault : option Pg.sql_error) (now : Time)
    (originalURL : string) (urls : gmap string Pg.row)
    : option (string * option store_error * gmap string Pg.row) :=
  shortURL ← generateShortURL originalURL;
  let '(urls', err) := Pg.ExecInsert fault now shortURL originalURL urls in
  match err with
  | Some e =>
      match e with
      | Pg.PgError code =>
          if String.eqb code Pg.unique_violation
          then Some (shortURL, None, urls')
          else Some (EmptyString, Some (SaveFailed e), urls')
      | Pg.ConnError _ => Some (EmptyString, Some (SaveFailed e), urls')
      end
  | None => Some (shortURL, None, urls')
  end.

(** [getURL] *)
Definition getURL (fault : option Pg.sql_error) (id : string)
    (urls : gmap string Pg.row) : string * option store_error :=
  match Pg.QueryRow fault id urls with
  | Pg.Scanned originalURL => (originalURL, None)
  | Pg.ErrNoRows => (EmptyString, Some NotFound)
  | Pg.ScanError e => (EmptyString, Some (RetrieveFailed e))
  end.

(** [handler] *)
Definition handler (r : Request) : Response :=
  text_body "Welcome to the Go + PostgreSQL URL Shortener!".

(** [ShortUrlHandler] *)
Definition ShortUrlHandler (fault : option Pg.sql_error) (now : Time)
    (r : Request) (urls : gmap string Pg.row)
    : option (Response * gmap string Pg.row) :=
  if negb (String.eqb (Method r) MethodPost)
  then Some (http_Error "Invalid request method" StatusMethodNotAllowed, urls)
  else
    data ← Json.Decode (Body r);
    match data with
    | Json.Failed _ =>
        Some (http_Error "Invalid request body" StatusBadRequest, urls)
    | Json.Decoded url =>
        '(shortURL_ID, err, urls') ← createURL fault now url urls;
        match err with
        | Some _ =>
            Some (http_Error "Failed to create short URL" StatusInternalServerError,
                  urls')
        | None =>
            let host := Host r in
            let scheme :=
              if String.eqb (HeaderGet r "X-Forwarded-Proto") "https"
              then "https" else "http" in
            let fullShortURL :=
              scheme +:+ "://" +:+ host +:+ "/r/" +:+ shortURL_ID in
            Some (json_short_url "application/json" StatusCreated fullShortURL,
                  urls')
        end
    end.

(** [redirectURLHandler] *)
Definition redirectURLHandler (fault : option Pg.sql_error) (r : Request)
    (urls : gmap string Pg.row) : option Response :=
  id ← slice_from (String.length "/r/") (Path r);
  let '(originalURL, err) := getURL fault id urls in
  match err with
  | Some _ => Some (http_Error "Link not found or has expired" StatusNotFound)
  | None => Some (Http.Redirect r originalURL StatusFound)
  end.

End Pg2.

(** * The vocabulary of the specification *)

Definition is_lower_hex (c : ascii) : bool :=
  existsb (Ascii.eqb c) (list_ascii_of_string Hex.hextable).

Fixpoint string_forall (P : ascii -> bool) (str : string) : bool :=
  match str with
  | EmptyString => true
  | String c str' => P c && string_forall P str'
  end.

(** The digest of a URL, in hexadecimal. *)
Definition hex_digest (u : string) : string :=
  Hex.EncodeToString (MD5.Sum (MD5.Write MD5.New (bytes_of_string u)) []).

(** The identifier of a URL: the first eight characters of [hex_digest]. *)
Definition derive (u : string) : string := substring 0 8 (hex_digest u).

(** The record [createURL] stores for [u] at time [now]. *)
Definition record_of (now : Time) (u : string) : Mem.URL :=
  {| Mem.ID := derive u; Mem.OriginalURL := u;
     Mem.ShortURL := derive u; Mem.CreationDate := now |}.

(** The invariant of the store: an entry sits under its own identifier,
    which is also its short URL and the identifier of its original URL. *)
Definition store_inv (urlDB : gmap string Mem.URL) : Prop :=
  forall (key : string) (url : Mem.URL),
    urlDB !! key = Some url ->
    key = Mem.ID url /\ Mem.ID url = Mem.ShortURL url
    /\ Mem.generateShortURL (Mem.OriginalURL url) = Some key.

(** The final segment of a path: what follows its last slash. *)
Fixpoint last_segment_from (seg : string) (str : string) : string :=
  match str with
  | EmptyString => seg
  | String c str' =>
      if Ascii.eqb c "/" then last_segment_from EmptyString str'
      else last_segment_from (seg +:+ String c EmptyString) str'
  end.

Definition last_segment (str : string) : string :=
  last_segment_from EmptyString str.

(** The double quote, and a string between double quotes. *)
Definition dquote : string := String "034" EmptyString.
Definition quoted (str : string) : string := dquote +:+ str +:+ dquote.

(** A byte that stands for itself inside a JSON string: printable ASCII
    other than the double quote and the backslash. *)
Definition plain_byte (b : Z) : bool :=
  (0x20 <=? b) && (b <? 0x80) && negb (b =? Json.quote) && negb (b =? Json.backslash).

Definition plain (u : string) : bool :=
  string_forall (fun c => plain_byte (byte_of_ascii c)) u.

(** The request body [{"url":"u"}] for a plain [u]. *)
Definition shorten_body (u : string) : string :=
  "{" +:+ quoted "url" +:+ ":" +:+ quoted u +:+ "}".

(** The scanner inside a string literal. *)
Definition in_string (ps : list Json.pstate) : Json.scanner :=
  {| Json.step := Json.stateInString; Json.parseState := ps |}.

(** The record the in-memory store holds for [id] after the operations
    [ops], when it held [cur] before: the one of the last create that
    derived [id]. *)
Fixpoint last_create (id : string) (ops : list Mem.op) (cur : option Mem.URL)
    : option Mem.URL :=
  match ops with
  | [] => cur
  | Mem.Create now u :: ops' =>
      last_create id ops'
        (if String.eqb (derive u) id then Some (record_of now u) else cur)
  | Mem.Get _ :: ops' => last_create id ops' cur
  end.

(** The row of the PostgreSQL table for [u] inserted at [now]. *)
Definition row_of (now : Time) (u : string) : Pg.row :=
  {| Pg.original_url := u; Pg.creation_date := now |}.

(** A string of visible ASCII characters: bytes from 0x21 to 0x7e, which
    leaves out blanks and control characters. *)
Definition visible_ascii (str : string) : bool :=
  string_forall (fun c => (0x21 <=? byte_of_ascii c) && (byte_of_ascii c <=? 0x7e))
    str.

(** A URL that begins with a scheme, as [getScheme] reads it: a letter,
    then letters, digits, plus, minus or dot, then a colon. *)
Definition has_scheme (u : string) : bool :=
  match Url.getScheme u with
  | Url.Scheme scheme _ => negb (String.eqb scheme EmptyString)
  | Url.SchemeError => false
  end.

(** [u, _, _ := strings.Cut(rawURL, "#")] *)
Definition before_hash (str : string) : string :=
  fst (fst (Strings.Cut str "#")).

(** Responses up to the text of an error message. *)
Definition same_answer (w1 w2 : Response) : Prop :=
  match w1, w2 with
  | http_Error _ code1, http_Error _ code2 => code1 = code2
  | _, _ => w1 = w2
  end.

(** A request with nothing but a method, a path and a body. *)
Definition request (method path body : string) : Request :=
  {| Method := method; Path := path; Host := "localhost:3000";
     HeaderGet := fun _ => EmptyString; Body := body |}.

(** * The decoder in step with the scanner

    The notions used to show that [Decode] never panics: the scanner
    restricted to string literals, and the place where the decoder stands
    for each state the scanner can be in. *)
Module JsonSync.
Import Json.

(** The states of the scanner inside a string literal. *)
Definition is_str (st : state) : bool :=
  match st with
  | stateInString | stateInStringEsc | stateInStringEscU
  | stateInStringEscU1 | stateInStringEscU12 | stateInStringEscU123 => true
  | _ => false
  end.

(** One byte of a string literal after its opening quote: the next state,
    [stateEndValue] after the closing quote, nothing on a byte the scanner
    rejects. *)
Definition sstep (st : state) (c : Z) : option state :=
  if is_str st then
    match scan_step {| step := st; parseState := [] |} c with
    | (sc', scanContinue) => Some (step sc')
    | _ => None
    end
  else None.

Fixpoint srun (st : state) (l : list Z) : option state :=
  match l with
  | [] => Some st
  | c :: l' => match sstep st c with Some st' => srun st' l' | None => None end
  end.

(** The states of the scanner inside a literal, and after one. *)
Definition lit_state (st : state) : bool :=
  match st with
  | stateNeg | state1 | state0 | stateDot | stateDot0 | stateE | stateESign | stateE0
  | stateT | stateTr | stateTru | stateF | stateFa | stateFal | stateFals
  | stateN | stateNu | stateNul | stateEndValue => true
  | _ => false
  end.

(** A string literal, met so far as the key or value [item] (last byte
    first), with the scanner in [st]. *)
Definition StrLit (st : state) (item : list Z) : Prop :=
  exists rest, rev item = quote :: rest /\ srun stateInString rest = Some st.

(** Any literal met so far. *)
Definition LitOK (st : state) (item : list Z) : Prop :=
  StrLit st item
  \/ (exists c0 rest, rev item = c0 :: rest /\ c0 <> quote /\ lit_state st = true).

(** Where the decoder stands when it has read the tokens of the bytes
    scanned so far. *)
Inductive wstate :=
| WStart
| WTop (item : list Z)
| WObj (pos : position) (lit : option (list Z))
| WDone.

Definition Wok (w : wstate) (evs : list (Z * opcode)) : Prop :=
  match w with
  | WStart => forall d, is_Some (value d (tokens evs None))
  | WTop item => forall d, is_Some (value d (tokens evs (Some item)))
  | WObj pos lit => forall d, is_Some (object pos d (tokens evs lit))
  | WDone => True
  end.

Inductive Compat : scanner -> wstate -> Prop :=
| CStart : Compat reset WStart
| CDone sc : Compat sc WDone
| CTop st item :
    LitOK st item -> Compat {| step := st; parseState := [] |} (WTop item)
| CKey st :
    st = stateBeginStringOrEmpty \/ st = stateBeginString ->
    Compat {| step := st; parseState := [parseObjectKey] |} (WObj AtKey None)
| CKeyLit st item :
    StrLit st item ->
    Compat {| step := st; parseState := [parseObjectKey] |} (WObj AtKey (Some item))
| CColon f :
    Compat {| step := stateEndValue; parseState := [parseObjectKey] |}
      (WObj (AtColon f) None)
| CValue f :
    Compat {| step := stateBeginValue; parseState := [parseObjectValue] |}
      (WObj (AtValue f) None)
| CValLit f st item :
    LitOK st item ->
    Compat {| step := st; parseState := [parseObjectValue] |}
      (WObj (AtValue f) (Some item))
| CAfter :
    Compat {| step := stateEndValue; parseState := [parseObjectValue] |}
      (WObj AfterValue None)
| CSkip st p p2 ps lit :
    st <> stateEndTop ->
    last (p2 :: ps) = Some parseObjectValue ->
    Compat {| step := st; parseState := p :: p2 :: ps |}
      (WObj (Skipping (length ps)) lit).

End JsonSync.

(** * Properties *)

(** ** The digest and its hexadecimal form *)

Example md5_empty : hex_digest "" = "d41d8cd98f00b204e9800998ecf8427e".
Proof. vm_compute. reflexivity. Qed.

(** Fifty-six bytes: the padding spills into a second block. *)
Example md5_padding :
  hex_digest "aaaaaaaaaaaaaaaaaaaaaaaaaaaaaaaaaaaaaaaaaaaaaaaaaaaaaaaa"
  = "3b0c8ac703f828b04c6c197006d17218".
Proof. vm_compute. reflexivity. Qed.

Example md5_abc : hex_digest "abc" = "900150983cd24fb0d6963f7d28e17f72".
Proof. vm_compute. reflexivity. Qed.

(** Eighty bytes: two blocks, the second one padded. *)
Example md5_two_blocks :
  hex_digest
    "12345678901234567890123456789012345678901234567890123456789012345678901234567890"
  = "57edf4a22be3c955ac49da2e2107b67a".
Proof. vm_compute. reflexivity. Qed.

Lemma checkSum_words (d : MD5.digest) :
  exists a b c e,
    MD5.checkSum d
    = MD5.le_put_uint32 a ++ MD5.le_put_uint32 b
        ++ MD5.le_put_uint32 c ++ MD5.le_put_uint32 e.
Proof.
  unfold MD5.checkSum.
  destruct (MD5.s (MD5.Write d _)) as [[[a b] c] e].
  by exists a, b, c, e.
Qed.

Lemma Sum_length (d : MD5.digest) : length (MD5.Sum d []) = MD5.Size.
Proof.
  unfold MD5.Sum. destruct (checkSum_words d) as (a & b & c & e & ->).
  reflexivity.
Qed.

Lemma EncodeToString_length (src : list Z) :
  String.length (Hex.EncodeToString src) = (2 * length src)%nat.
Proof.
  induction src as [|v src IH]; simpl; [reflexivity|].
  rewrite IH. lia.
Qed.

Lemma hex_digest_length (u : string) : String.length (hex_digest u) = 32%nat.
Proof.
  unfold hex_digest. rewrite EncodeToString_length, Sum_length. reflexivity.
Qed.

Lemma substring_prefix_length (n : nat) (str : string) :
  (n <= String.length str)%nat -> String.length (substring 0 n str) = n.
Proof.
  revert str. induction n as [|n IH]; intros [|c str] H; simpl in *; try lia.
  rewrite IH; lia.
Qed.

Lemma substring_prefix_forall (P : ascii -> bool) (n : nat) (str : string) :
  string_forall P str = true -> string_forall P (substring 0 n str) = true.
Proof.
  revert str. induction n as [|n IH]; intros [|c str] H; simpl in *; try done.
  apply andb_true_iff in H as [Hc H]. rewrite Hc. simpl. by apply IH.
Qed.

Lemma land_byte (v : Z) : 0 <= Z.land v 0xff < 256.
Proof.
  change 0xff with (Z.ones 8). rewrite Z.land_ones by lia.
  apply Z.mod_pos_bound. lia.
Qed.

Lemma digit_lower_hex_nat (k : nat) :
  (k < 16)%nat -> is_lower_hex (Hex.digit (Z.of_nat k)) = true.
Proof.
  intros H. do 16 (destruct k as [|k]; [reflexivity|]). lia.
Qed.

Lemma digit_lower_hex (n : Z) : 0 <= n < 16 -> is_lower_hex (Hex.digit n) = true.
Proof.
  intros H. rewrite <- (Z2Nat.id n) by lia. apply digit_lower_hex_nat. lia.
Qed.

Lemma EncodeToString_lower_hex (src : list Z) :
  Forall (fun v => 0 <= v < 256) src ->
  string_forall is_lower_hex (Hex.EncodeToString src) = true.
Proof.
  induction 1 as [|v src Hv _ IH]; simpl; [reflexivity|].
  rewrite IH, !digit_lower_hex; [reflexivity | |].
  - change 0x0f with (Z.ones 4). rewrite Z.land_ones by lia.
    apply Z.mod_pos_bound. lia.
  - rewrite Z.shiftr_div_pow2 by lia. change (2 ^ 4) with 16.
    split; [apply Z.div_pos; lia | apply Z.div_lt_upper_bound; lia].
Qed.

Lemma checkSum_bytes (d : MD5.digest) :
  Forall (fun v => 0 <= v < 256) (MD5.checkSum d).
Proof.
  destruct (checkSum_words d) as (a & b & c & e & ->).
  unfold MD5.le_put_uint32. simpl.
  repeat (apply Forall_cons; split; [apply land_byte|]).
  apply Forall_nil. done.
Qed.

Lemma hex_digest_lower_hex (u : string) :
  string_forall is_lower_hex (hex_digest u) = true.
Proof. apply EncodeToString_lower_hex, checkSum_bytes. Qed.

Lemma slice_to_Some (n : nat) (str : string) :
  (n <= String.length str)%nat -> slice_to n str = Some (substring 0 n str).
Proof.
  intros H. unfold slice_to.
  destruct (Nat.leb_spec n (String.length str)); [reflexivity | lia].
Qed.

Lemma generateShortURL_eq (u : string) :
  Mem.generateShortURL u = Some (substring 0 8 (hex_digest u)).
Proof.
  unfold Mem.generateShortURL. apply slice_to_Some.
  fold (hex_digest u). rewrite hex_digest_length. lia.
Qed.

Lemma Pg_generateShortURL_eq (u : string) :
  Pg.generateShortURL u = Mem.generateShortURL u.
Proof. reflexivity. Qed.

Lemma generateShortURL_derive (u : string) :
  Mem.generateShortURL u = Some (derive u).
Proof. apply generateShortURL_eq. Qed.

Lemma derive_length (u : string) : String.length (derive u) = 8%nat.
Proof.
  unfold derive. apply substring_prefix_length.
  rewrite hex_digest_length. lia.
Qed.

Lemma derive_lower_hex (u : string) : string_forall is_lower_hex (derive u) = true.
Proof. apply substring_prefix_forall, hex_digest_lower_hex. Qed.

Lemma createURL_eq (now : Time) (u : string) (urlDB : gmap string Mem.URL) :
  Mem.createURL now u urlDB
  = Some (derive u, <[derive u := record_of now u]> urlDB).
Proof.
  unfold Mem.createURL. rewrite generateShortURL_derive. reflexivity.
Qed.

Lemma getURL_found (id : string) (urlDB : gmap string Mem.URL) (url : Mem.URL) :
  urlDB !! id = Some url -> Mem.getURL id urlDB = (url, None).
Proof. intros H. unfold Mem.getURL. by rewrite H. Qed.


(** ** Runs of store operations *)

Lemma exec_Get (id : string) (urlDB : gmap string Mem.URL) :
  Mem.exec urlDB (Mem.Get id) = Some urlDB.
Proof. reflexivity. Qed.

Lemma exec_Create (now : Time) (u : string) (urlDB : gmap string Mem.URL) :
  Mem.exec urlDB (Mem.Create now u)
  = Some (<[derive u := record_of now u]> urlDB).
Proof. simpl. by rewrite createURL_eq. Qed.

(** One operation of a run, in the hypothesis [H] or in the goal. *)
Ltac step_run_in H :=
  cbn [Mem.run] in H; rewrite ?exec_Create, ?exec_Get in H;
  cbn [mbind option_bind] in H.

Ltac step_run :=
  cbn [Mem.run]; rewrite ?exec_Create, ?exec_Get; cbn [mbind option_bind].

Lemma run_total (ops : list Mem.op) (urlDB : gmap string Mem.URL) :
  is_Some (Mem.run ops urlDB).
Proof.
  revert urlDB. induction ops as [|[now u|id] ops IH]; intros urlDB.
  - by eexists.
  - step_run. apply IH.
  - step_run. apply IH.
Qed.


Lemma store_inv_empty : store_inv ∅.
Proof. intros key url H. by rewrite lookup_empty in H. Qed.

Lemma store_inv_insert (now : Time) (u : string) (urlDB : gmap string Mem.URL) :
  store_inv urlDB -> store_inv (<[derive u := record_of now u]> urlDB).
Proof.
  intros Hinv key url H.
  destruct (decide (derive u = key)) as [<- | Hne].
  - rewrite lookup_insert_eq in H. injection H as <-. simpl.
    by rewrite generateShortURL_derive.
  - rewrite lookup_insert_ne in H by done. by apply Hinv.
Qed.

Lemma store_inv_run (ops : list Mem.op) (urlDB urlDB' : gmap string Mem.URL) :
  store_inv urlDB -> Mem.run ops urlDB = Some urlDB' -> store_inv urlDB'.
Proof.
  revert urlDB. induction ops as [|[now u|id] ops IH]; intros urlDB Hinv Hrun.
  - simpl in Hrun. by injection Hrun as <-.
  - step_run_in Hrun. eapply IH; [|exact Hrun]. by apply store_inv_insert.
  - step_run_in Hrun. by eapply IH.
Qed.

(** ** Identifier derivation *)

(** C3: for every input string, [generateShortURL] returns an identifier;
    it is the first eight characters of the hexadecimal MD5 digest of the
    bytes of the input, it has eight characters, all of them lower-case
    hexadecimal digits, and the in-memory and the PostgreSQL service
    derive the same one.  Being a function of the input alone, it is the
    same at every call. *)
Theorem generateShortURL_is_digest_prefix (u : string) :
  exists id,
    Mem.generateShortURL u = Some id
    /\ Pg.generateShortURL u = Some id
    /\ id = substring 0 8
             (Hex.EncodeToString
                (MD5.Sum (MD5.Write MD5.New (bytes_of_string u)) []))
    /\ String.length id = 8%nat
    /\ string_forall is_lower_hex id = true.
Proof.
  exists (derive u). split_and!; [| | reflexivity | |].
  - apply generateShortURL_derive.
  - rewrite Pg_generateShortURL_eq. apply generateShortURL_derive.
  - apply derive_length.
  - apply derive_lower_hex.
Qed.

Example derive_golang_projects :
  Mem.generateShortURL "https://www.google.com/search?q=golang+projects"
  = Some "3d6a2e60".
Proof. vm_compute. reflexivity. Qed.

Example derive_example_com :
  Mem.generateShortURL "https://example.com" = Some "c984d06a".
Proof. vm_compute. reflexivity. Qed.

(** C9: the hexadecimal form of the digest has 32 characters for every
    input, the empty string included, so [hash[:8]] is in range and
    [generateShortURL] never panics. *)
Theorem generateShortURL_slice_in_range (u : string) :
  String.length (hex_digest u) = 32%nat
  /\ String.length (hex_digest "") = 32%nat
  /\ slice_to 8 (hex_digest u) = Some (substring 0 8 (hex_digest u))
  /\ is_Some (Mem.generateShortURL u)
  /\ is_Some (Mem.generateShortURL "").
Proof.
  split_and!.
  - apply hex_digest_length.
  - apply hex_digest_length.
  - apply slice_to_Some. rewrite hex_digest_length. lia.
  - rewrite generateShortURL_derive. by eexists.
  - rewrite generateShortURL_derive. by eexists.
Qed.

(** ** The in-memory store *)

(** C2: for every non-empty [u], [createURL] returns an identifier, and
    [getURL] on that identifier in the resulting store succeeds with a
    record whose original URL is [u]. *)
Theorem get_after_create (now : Time) (u : string) (urlDB : gmap string Mem.URL) :
  u <> EmptyString ->
  exists id urlDB' url,
    Mem.createURL now u urlDB = Some (id, urlDB')
    /\ Mem.getURL id urlDB' = (url, None)
    /\ Mem.OriginalURL url = u.
Proof.
  intros _. exists (derive u), (<[derive u := record_of now u]> urlDB), (record_of now u).
  split; [apply createURL_eq|]. split; [|reflexivity].
  apply getURL_found, lookup_insert_eq.
Qed.

Lemma get_after_create_witness :
  "https://example.com" <> EmptyString
  /\ exists id urlDB' url,
       Mem.createURL 7 "https://example.com" ∅ = Some (id, urlDB')
       /\ Mem.getURL id urlDB' = (url, None)
       /\ Mem.OriginalURL url = "https://example.com".
Proof.
  split; [discriminate|].
  apply (get_after_create 7 "https://example.com" ∅). discriminate.
Defined.

(** C10: a run of create and get operations from the empty store never
    panics and ends in a store where every entry satisfies
    key = ID = ShortURL and derive(OriginalURL) = key; get leaves the map
    as it is, and create keeps the invariant. *)
Theorem store_invariant (ops : list Mem.op) :
  (exists urlDB, Mem.run ops ∅ = Some urlDB /\ store_inv urlDB)
  /\ (forall id urlDB, Mem.exec urlDB (Mem.Get id) = Some urlDB)
  /\ (forall now u urlDB,
        store_inv urlDB ->
        exists id urlDB',
          Mem.createURL now u urlDB = Some (id, urlDB') /\ store_inv urlDB').
Proof.
  split; [|split].
  - destruct (run_total ops ∅) as [urlDB Hrun]. exists urlDB.
    split; [done|]. eapply store_inv_run; [apply store_inv_empty | done].
  - intros id urlDB. apply exec_Get.
  - intros now u urlDB Hinv. eexists _, _.
    split; [apply createURL_eq|]. by apply store_inv_insert.
Qed.

Lemma store_invariant_witness :
  exists urlDB,
    Mem.run [Mem.Create 1 "a"; Mem.Get "0cc175b9"; Mem.Create 2 "b"] ∅ = Some urlDB
    /\ store_inv urlDB.
Proof.
  exact (proj1 (store_invariant [Mem.Create 1 "a"; Mem.Get "0cc175b9"; Mem.Create 2 "b"])).
Defined.

(** ** Slicing a path *)

Lemma substring_all (str : string) : substring 0 (String.length str) str = str.
Proof. induction str as [|c str IH]; simpl; [reflexivity | by rewrite IH]. Qed.

Lemma length_append (p str : string) :
  String.length (p +:+ str) = (String.length p + String.length str)%nat.
Proof. induction p as [|c p IH]; simpl; [reflexivity | by rewrite IH]. Qed.

Lemma substring_skip (p str : string) (n : nat) :
  substring (String.length p) n (p +:+ str) = substring 0 n str.
Proof. induction p as [|c p IH]; simpl; [reflexivity | apply IH]. Qed.

Lemma slice_from_append (p str : string) :
  slice_from (String.length p) (p +:+ str) = Some str.
Proof.
  unfold slice_from. rewrite length_append.
  destruct (Nat.leb_spec (String.length p) (String.length p + String.length str));
    [|lia].
  replace (String.length p + String.length str - String.length p)%nat
    with (String.length str) by lia.
  by rewrite substring_skip, substring_all.
Qed.

(** ** The Location of a redirect *)

Lemma hexEscapeNonASCII_visible (str : string) :
  visible_ascii str = true -> Http.hexEscapeNonASCII str = str.
Proof.
  unfold visible_ascii. induction str as [|c str IH]; [done|].
  cbn [string_forall Http.hexEscapeNonASCII].
  intros [[_ Hc]%andb_prop Hs]%andb_prop.
  destruct (Z.leb_spec 128 (byte_of_ascii c)) as [Hge|_].
  - apply Z.leb_le in Hc. lia.
  - f_equal. by apply IH.
Qed.

Lemma before_hash_cons (c : ascii) (str : string) :
  Ascii.eqb c "#" = false ->
  before_hash (String c str) = String c (before_hash str).
Proof.
  unfold before_hash. cbn [Strings.Cut]. intros ->.
  by destruct (Strings.Cut str "#") as [[? ?] ?].
Qed.

(** Past its first byte [getScheme] either finds no scheme or stops at a
    colon, and then it stops at the same colon on the text before the
    fragment. *)
Lemma getScheme_loop_before_hash (str raw : string) (i : nat) :
  Url.getScheme_loop raw (S i) str = Url.Scheme EmptyString raw
  \/ exists j rest,
       Url.getScheme_loop raw (S i) str
       = Url.Scheme (String.substring 0 (S j) raw) rest
       /\ forall raw', exists rest',
            Url.getScheme_loop raw' (S i) (before_hash str)
            = Url.Scheme (String.substring 0 (S j) raw') rest'.
Proof.
  revert i. induction str as [|c str IH]; intros i; [by left|].
  cbn [Url.getScheme_loop].
  destruct (Url.is_letter c) eqn:Hl.
  { assert (Ascii.eqb c "#" = false) as Hh
      by (destruct (Ascii.eqb_spec c "#") as [->|]; [discriminate Hl | done]).
    rewrite (before_hash_cons c str Hh).
    destruct (IH (S i)) as [H | (j & rest & H & H')]; [by left|].
    right. exists j, rest. split; [done|].
    intros raw'. cbn [Url.getScheme_loop]. rewrite Hl. apply H'. }
  destruct (Url.is_digit c || Ascii.eqb c "+" || Ascii.eqb c "-"
            || Ascii.eqb c ".") eqn:Hd.
  { assert (Ascii.eqb c "#" = false) as Hh
      by (destruct (Ascii.eqb_spec c "#") as [->|]; [discriminate Hd | done]).
    rewrite (before_hash_cons c str Hh).
    destruct (IH (S i)) as [H | (j & rest & H & H')]; [by left|].
    right. exists j, rest. split; [done|].
    intros raw'. cbn [Url.getScheme_loop]. rewrite Hl, Hd. apply H'. }
  destruct (Ascii.eqb c ":") eqn:Hc; [|by left].
  assert (Ascii.eqb c "#" = false) as Hh
    by (destruct (Ascii.eqb_spec c "#") as [->|]; [discriminate Hc | done]).
  rewrite (before_hash_cons c str Hh).
  right. exists i, str. split; [done|].
  intros raw'. exists (before_hash str).
  cbn [Url.getScheme_loop]. by rewrite Hl, Hd, Hc.
Qed.

(** A URL with a scheme is no relative reference: [url.Parse] fails on
    it or returns its scheme. *)
Lemma has_scheme_not_relative (u : string) :
  has_scheme u = true -> Url.Parse_relative u = false.
Proof.
  unfold has_scheme, Url.getScheme.
  destruct u as [|c str]; [discriminate|].
  cbn [Url.getScheme_loop].
  destruct (Url.is_letter c) eqn:Hl.
  2:{ destruct (_ || _); [discriminate|].
      destruct (Ascii.eqb c ":"); discriminate. }
  assert (Ascii.eqb c "#" = false) as Hh
    by (destruct (Ascii.eqb_spec c "#") as [->|]; [discriminate Hl | done]).
  assert (Ascii.eqb c "*" = false) as Hs
    by (destruct (Ascii.eqb_spec c "*") as [->|]; [discriminate Hl | done]).
  destruct (getScheme_loop_before_hash str (String c str) 0)
    as [-> | (j & rest & -> & H')]; [discriminate|].
  intros _. destruct (H' (String c (before_hash str))) as [rest' Hrest].
  unfold Url.Parse_relative.
  pose proof (before_hash_cons c str Hh) as Hcut. unfold before_hash in Hcut.
  destruct (Strings.Cut (String c str) "#") as [[u0 frag] found].
  cbn [fst] in Hcut. subst u0.
  apply andb_false_intro1. unfold Url.parse_relative.
  destruct (Url.stringContainsCTLByte _); [done|].
  cbn [String.eqb]. rewrite Hs.
  unfold Url.getScheme. cbn [Url.getScheme_loop]. rewrite Hl.
  fold (before_hash str). rewrite Hrest. done.
Qed.

Lemma Location_not_relative (oldpath u : string) :
  Url.Parse_relative u = false ->
  Http.Location oldpath u = Http.hexEscapeNonASCII u.
Proof. unfold Http.Location, Http.target. by intros ->. Qed.

(** [http.Redirect] sends a URL of visible ASCII characters that begins
    with a scheme as it is. *)
Lemma Location_absolute (oldpath u : string) :
  has_scheme u = true -> visible_ascii u = true -> Http.Location oldpath u = u.
Proof.
  intros Hs Ha.
  rewrite Location_not_relative by by apply has_scheme_not_relative.
  by apply hexEscapeNonASCII_visible.
Qed.

Lemma redirectURLHandler_eq (r : Request) (id : string)
    (urlDB : gmap string Mem.URL) :
  Path r = "/redirect/" +:+ id ->
  Mem.redirectURLHandler r urlDB
  = Some match urlDB !! id with
         | Some url =>
             http_Redirect (Http.Location (Path r) (Mem.OriginalURL url)) 302
         | None => http_Error "URL not found" 404
         end.
Proof.
  intros Hpath. unfold Mem.redirectURLHandler.
  rewrite Hpath at 1. rewrite (slice_from_append "/redirect/" id).
  cbn [mbind option_bind]. unfold Mem.getURL. by destruct (urlDB !! id).
Qed.

Lemma Pg_redirectURLHandler_eq (fault : option Pg.sql_error) (r : Request)
    (id : string) (urls : gmap string Pg.row) :
  Path r = "/r/" +:+ id ->
  Pg.redirectURLHandler fault r urls
  = Some match fault, urls !! id with
         | None, Some row =>
             http_Redirect (Http.Location (Path r) (Pg.original_url row)) 302
         | _, _ => http_Error "Link not found or has expired" 404
         end.
Proof.
  intros Hpath. unfold Pg.redirectURLHandler.
  rewrite Hpath at 1. rewrite (slice_from_append "/r/" id).
  cbn [mbind option_bind]. unfold Pg.getURL, Pg.QueryRow.
  destruct fault; [done|]. by destruct (urls !! id).
Qed.

(** ** Lookup and redirection *)




(** ** Failures of create *)

(** C6: the in-memory [createURL] returns an identifier and a store for
    every input; the PostgreSQL [createURL] returns an error only when the
    database call failed with something else than a unique violation, and
    that error is the wrapped storage error. *)
Theorem createURL_fails_only_on_storage_error :
  (forall now u urlDB,
     exists id urlDB', Mem.createURL now u urlDB = Some (id, urlDB'))
  /\ (forall fault now u urls,
        exists id err urls',
          Pg.createURL fault now u urls = Some (id, err, urls')
          /\ (forall e, err = Some e ->
                exists cause,
                  fault = Some cause /\ e = Pg.SaveFailed cause
                  /\ cause <> Pg.PgError Pg.unique_violation)
          /\ (fault = None -> err = None /\ id = derive u)).
Proof.
  split.
  - intros now u urlDB. eexists _, _. apply createURL_eq.
  - intros fault now u urls. unfold Pg.createURL.
    rewrite Pg_generateShortURL_eq, generateShortURL_derive. simpl.
    unfold Pg.ExecInsert. destruct fault as [[code|msg]|].
    + destruct (String.eqb_spec code Pg.unique_violation) as [-> | Hne].
      * eexists _, _, _. split; [reflexivity|]. split; [by intros e [=] | by intros [=]].
      * eexists _, _, _. split; [reflexivity|]. split; [|by intros [=]].
        intros e [= <-]. eexists. split_and!; [done..|]. by intros [= ->].
    + eexists _, _, _. split; [reflexivity|]. split; [|by intros [=]].
      intros e [= <-]. eexists. by split_and!.
    + destruct (urls !! derive u); simpl; eexists _, _, _;
        (split; [reflexivity|]); (split; [by intros e [=] | done]).
Qed.

(** ** Creating twice *)

(** What [createURL] keeps when the identifier is already there: the
    identifier it returns and the set of keys. *)
Lemma createURL_twice (now1 now2 : Time) (u : string) (urlDB : gmap string Mem.URL) :
  exists urlDB1 urlDB2,
    Mem.createURL now1 u urlDB = Some (derive u, urlDB1)
    /\ Mem.createURL now2 u urlDB1 = Some (derive u, urlDB2)
    /\ dom urlDB2 = dom urlDB1
    /\ urlDB2 !! derive u = Some (record_of now2 u).
Proof.
  eexists _, _. split; [apply createURL_eq|]. split; [apply createURL_eq|].
  split; [|apply lookup_insert_eq].
  by rewrite !dom_insert_L, (assoc_L (∪)), (idemp_L (∪)).
Qed.

(** The PostgreSQL [createURL] on an identifier that has a row: the
    insert is rejected by the primary key, the identifier is returned
    without error and the table is what it was. *)
Lemma Pg_createURL_existing (now : Time) (u : string) (urls : gmap string Pg.row) :
  is_Some (urls !! derive u) ->
  Pg.createURL None now u urls = Some (derive u, None, urls).
Proof.
  intros [r Hr]. unfold Pg.createURL.
  rewrite Pg_generateShortURL_eq, generateShortURL_derive. simpl.
  by rewrite Hr.
Qed.

Example derive_collision :
  derive "https://example.com/1548" = "7f17b0c9"
  /\ derive "https://example.com/2133" = "7f17b0c9".
Proof. split; vm_compute; reflexivity. Qed.

(** C1, on the in-memory store: a second [createURL] of the same URL
    returns the same identifier and adds no row, but the stored record is
    replaced, with a new creation date; a create of another URL with the
    same identifier replaces the original URL as well. *)
Theorem createURL_replaces_stored_record :
  exists urlDB1 urlDB2 urlDB3,
    Mem.createURL 1 "https://example.com/1548" ∅ = Some ("7f17b0c9", urlDB1)
    /\ Mem.createURL 2 "https://example.com/1548" urlDB1 = Some ("7f17b0c9", urlDB2)
    /\ Mem.createURL 3 "https://example.com/2133" urlDB2 = Some ("7f17b0c9", urlDB3)
    /\ Mem.CreationDate <$> urlDB1 !! "7f17b0c9" = Some 1
    /\ Mem.CreationDate <$> urlDB2 !! "7f17b0c9" = Some 2
    /\ Mem.OriginalURL <$> urlDB2 !! "7f17b0c9" = Some "https://example.com/1548"
    /\ Mem.OriginalURL <$> urlDB3 !! "7f17b0c9" = Some "https://example.com/2133"
    /\ urlDB2 !! "7f17b0c9" <> urlDB1 !! "7f17b0c9".
Proof.
  destruct derive_collision as [H1 H2].
  pose (urlDB1 := <["7f17b0c9" := record_of 1 "https://example.com/1548"]>
                    (∅ : gmap string Mem.URL)).
  pose (urlDB2 := <["7f17b0c9" := record_of 2 "https://example.com/1548"]> urlDB1).
  pose (urlDB3 := <["7f17b0c9" := record_of 3 "https://example.com/2133"]> urlDB2).
  exists urlDB1, urlDB2, urlDB3.
  rewrite !createURL_eq, H1, H2. subst urlDB1 urlDB2 urlDB3.
  rewrite !lookup_insert_eq. unfold record_of. cbn [fmap option_fmap option_map
    Mem.CreationDate Mem.OriginalURL].
  generalize (derive "https://example.com/1548") (derive "https://example.com/2133").
  intros d1 d2. split_and!; [reflexivity.. |]. intros [=].
Qed.

(** ** Decoding the body of a request *)

Lemma bytes_of_string_append (a b : string) :
  bytes_of_string (a +:+ b) = bytes_of_string a ++ bytes_of_string b.
Proof.
  induction a as [|x a IH]; [reflexivity|].
  change (byte_of_ascii x :: bytes_of_string (a +:+ b)
          = byte_of_ascii x :: (bytes_of_string a ++ bytes_of_string b)).
  by rewrite IH.
Qed.

Lemma bytes_of_string_plain (u : string) :
  plain u = true -> Forall (fun b => plain_byte b = true) (bytes_of_string u).
Proof.
  induction u as [|c u IH]; intros H.
  - constructor.
  - apply andb_true_iff in H as [Hc H].
    change (bytes_of_string (String c u)) with (byte_of_ascii c :: bytes_of_string u).
    constructor; [done | by apply IH].
Qed.

Lemma string_of_bytes_of_string (u : string) : string_of_bytes (bytes_of_string u) = u.
Proof.
  induction u as [|c u IH]; [reflexivity|].
  change (String (ascii_of_byte (byte_of_ascii c)) (string_of_bytes (bytes_of_string u))
          = String c u).
  rewrite IH. f_equal. unfold ascii_of_byte, byte_of_ascii.
  pose proof (N_ascii_bounded c) as Hb.
  rewrite Z.mod_small by lia. by rewrite N2Z.id, ascii_N_embedding.
Qed.

Lemma scan_step_plain (ps : list Json.pstate) (c : Z) :
  plain_byte c = true ->
  Json.scan_step (in_string ps) c = (in_string ps, Json.scanContinue).
Proof.
  unfold plain_byte. intros H.
  repeat (apply andb_true_iff in H as [H ?]).
  unfold Json.scan_step, Json.do_stateInString. cbn [Json.step in_string].
  destruct (c =? Json.quote); [done|].
  destruct (c =? Json.backslash); [done|].
  destruct (Z.ltb_spec c 0x20); [|done].
  apply Z.leb_le in H. lia.
Qed.

Lemma readValue_in_string (ps : list Json.pstate) (l rest : list Z)
    (acc : list (Z * Json.opcode)) :
  Forall (fun b => plain_byte b = true) l ->
  Json.readValue (in_string ps) (l ++ rest) true acc
  = Json.readValue (in_string ps) rest true
      (rev (List.map (fun c => (c, Json.scanContinue)) l) ++ acc).
Proof.
  intros H. revert acc. induction H as [|c l Hc _ IH]; intros acc; [reflexivity|].
  cbn [app Json.readValue]. rewrite (scan_step_plain ps c Hc).
  cbn [orb]. rewrite IH. cbn [List.map rev]. by rewrite <- app_assoc.
Qed.

Lemma tokens_continue (l : list Z) (evs : list (Z * Json.opcode)) (item : list Z) :
  Json.tokens (List.map (fun c => (c, Json.scanContinue)) l ++ evs) (Some item)
  = Json.tokens evs (Some (rev l ++ item)).
Proof.
  revert item. induction l as [|c l IH]; intros item; [reflexivity|].
  cbn [List.map app Json.tokens]. rewrite IH. cbn [rev]. by rewrite <- app_assoc.
Qed.

Lemma unquote_body_plain (l : list Z) :
  Forall (fun b => plain_byte b = true) l -> Json.unquote_body l = Some l.
Proof.
  induction 1 as [|c l Hc _ IH]; [reflexivity|].
  unfold plain_byte in Hc. repeat (apply andb_true_iff in Hc as [Hc ?]).
  apply negb_true_iff in H, H0. apply Z.leb_le in Hc. apply Z.ltb_lt in H1.
  cbn [Json.unquote_body]. rewrite H, H0. cbn [orb].
  destruct (Z.ltb_spec c 0x20); [lia|].
  destruct (Z.ltb_spec c 0x80); [|lia].
  by rewrite IH.
Qed.

Lemma readValue_url_object (l : list Z) :
  Forall (fun b => plain_byte b = true) l ->
  Json.readValue Json.reset
    ([123; 34; 117; 114; 108; 34; 58; 34] ++ l ++ [34; 125]) false []
  = inl ([(123, Json.scanBeginObject); (34, Json.scanBeginLiteral);
          (117, Json.scanContinue); (114, Json.scanContinue);
          (108, Json.scanContinue); (34, Json.scanContinue);
          (58, Json.scanObjectKey); (34, Json.scanBeginLiteral)]
         ++ List.map (fun c => (c, Json.scanContinue)) l
         ++ [(34, Json.scanContinue); (125, Json.scanEndObject)]).
Proof.
  intros H.
  transitivity (Json.readValue (in_string [Json.parseObjectValue]) (l ++ [34; 125]) true
     (rev [(123, Json.scanBeginObject); (34, Json.scanBeginLiteral);
          (117, Json.scanContinue); (114, Json.scanContinue);
          (108, Json.scanContinue); (34, Json.scanContinue);
          (58, Json.scanObjectKey); (34, Json.scanBeginLiteral)])).
  { reflexivity. }
  rewrite readValue_in_string by done.
  set (acc := _ ++ _).
  transitivity (@inl _ Json.decode_error (rev ((125, Json.scanEndObject) :: (34, Json.scanContinue) :: acc))).
  { reflexivity. }
  subst acc. cbn [rev]. rewrite rev_app_distr, !rev_involutive.
  by rewrite <- !app_assoc.
Qed.

Lemma bytes_shorten_body (u : string) :
  bytes_of_string (shorten_body u)
  = [123; 34; 117; 114; 108; 34; 58; 34] ++ bytes_of_string u ++ [34; 125].
Proof.
  unfold shorten_body, quoted. rewrite !bytes_of_string_append, <- !app_assoc.
  reflexivity.
Qed.

Lemma unquoteBytes_plain (l : list Z) :
  Forall (fun b => plain_byte b = true) l ->
  Json.unquoteBytes (34 :: l ++ [34]) = Some l.
Proof.
  intros H. unfold Json.unquoteBytes. rewrite rev_app_distr. cbn [rev app].
  rewrite rev_involutive. change ((34 =? Json.quote) && (34 =? Json.quote)) with true.
  cbn match. by apply unquote_body_plain.
Qed.

Lemma value_url_object (l : list Z) :
  Forall (fun b => plain_byte b = true) l ->
  Json.value {| Json.URL := EmptyString; Json.savedError := None |}
    [Json.TBeginObject; Json.TLit [34; 117; 114; 108; 34]; Json.TObjectKey;
     Json.TLit (34 :: l ++ [34]); Json.TEndObject]
  = Some {| Json.URL := string_of_bytes l; Json.savedError := None |}.
Proof.
  intros H. cbn [Json.value Json.object].
  change (Json.unquoteBytes [34; 117; 114; 108; 34]) with (Some [117; 114; 108]).
  change (Json.is_url_field [117; 114; 108]) with true.
  cbn [Json.object]. unfold Json.literalStore_field.
  change (34 =? Json.ch "n") with false.
  change ((34 =? Json.ch "t") || (34 =? Json.ch "f")) with false.
  change (34 =? Json.quote) with true. cbn match.
  by rewrite unquoteBytes_plain.
Qed.

(** The body [{"url":"u"}] decodes to [u]. *)
Lemma Decode_shorten_body (u : string) :
  plain u = true -> Json.Decode (shorten_body u) = Some (Json.Decoded u).
Proof.
  intros H%bytes_of_string_plain. unfold Json.Decode.
  rewrite bytes_shorten_body, readValue_url_object by done.
  cbn [app Json.tokens Json.flush]. rewrite tokens_continue.
  cbn [Json.tokens Json.flush app rev].
  rewrite rev_app_distr, rev_involutive. cbn [rev app].
  rewrite value_url_object by done. cbn [Json.savedError Json.URL].
  by rewrite string_of_bytes_of_string.
Qed.

(** ** The handler of /shorten *)

Lemma ShortUrlHandler_decoded (now : Time) (r : Request)
    (urlDB : gmap string Mem.URL) (u : string) :
  Method r = MethodPost ->
  Json.Decode (Body r) = Some (Json.Decoded u) ->
  Mem.ShortUrlHandler now r urlDB
  = Some (json_short_url "application/json" StatusCreated
            ("http://localhost:3000/redirect/" +:+ derive u),
          <[derive u := record_of now u]> urlDB).
Proof.
  intros Hm Hd. unfold Mem.ShortUrlHandler.
  rewrite Hm, String.eqb_refl, Hd. cbn [negb mbind option_bind].
  by rewrite createURL_eq.
Qed.

Lemma ShortUrlHandler_failed (now : Time) (r : Request)
    (urlDB : gmap string Mem.URL) (e : Json.decode_error) :
  Method r = MethodPost ->
  Json.Decode (Body r) = Some (Json.Failed e) ->
  Mem.ShortUrlHandler now r urlDB
  = Some (http_Error "Invalid request body" StatusBadRequest, urlDB).
Proof.
  intros Hm Hd. unfold Mem.ShortUrlHandler.
  by rewrite Hm, String.eqb_refl, Hd.
Qed.

(** A body the scanner rejects, or that ends before a value is complete,
    makes [Decode] fail. *)
Lemma Decode_not_json (body : string) (e : Json.decode_error) :
  Json.readValue Json.reset (bytes_of_string body) false [] = inr e ->
  Json.Decode body = Some (Json.Failed e).
Proof. intros H. unfold Json.Decode. by rewrite H. Qed.

(** C8: a request to /shorten whose method is not POST is answered 405,
    and the store is the one before the request. *)
Theorem ShortUrlHandler_method_not_allowed (now : Time) (r : Request)
    (urlDB : gmap string Mem.URL) :
  Method r <> "POST" ->
  Mem.ShortUrlHandler now r urlDB
  = Some (http_Error "Invalid request method" 405, urlDB).
Proof.
  intros Hm. unfold Mem.ShortUrlHandler.
  apply String.eqb_neq in Hm. unfold MethodPost. by rewrite Hm.
Qed.

Lemma ShortUrlHandler_method_not_allowed_witness :
  "GET" <> "POST"
  /\ Mem.ShortUrlHandler 1 (request "GET" "/shorten" "{}") ∅
     = Some (http_Error "Invalid request method" 405, ∅).
Proof.
  split; [discriminate|].
  apply (ShortUrlHandler_method_not_allowed 1 (request "GET" "/shorten" "{}") ∅).
  discriminate.
Defined.

Lemma Pg_createURL_no_fault (now : Time) (u : string) (urls : gmap string Pg.row) :
  Pg.createURL None now u urls
  = Some (derive u, None,
          match urls !! derive u with
          | Some _ => urls
          | None => <[derive u := {| Pg.original_url := u;
                                     Pg.creation_date := now |}]> urls
          end).
Proof.
  unfold Pg.createURL. rewrite Pg_generateShortURL_eq, generateShortURL_derive.
  cbn [mbind option_bind]. unfold Pg.ExecInsert.
  by destruct (urls !! derive u).
Qed.

Lemma Pg_ShortUrlHandler_decoded (now : Time) (r : Request)
    (urls urls' : gmap string Pg.row) (u id : string) :
  Method r = MethodPost ->
  Json.Decode (Body r) = Some (Json.Decoded u) ->
  Pg.createURL None now u urls = Some (id, None, urls') ->
  Pg.ShortUrlHandler None now r urls
  = Some (json_short_url "application/json" StatusCreated
            ((if String.eqb (HeaderGet r "X-Forwarded-Proto") "https"
              then "https" else "http") +:+ "://" +:+ Host r +:+ "/r/" +:+ id),
          urls').
Proof.
  intros Hm Hd Hc. unfold Pg.ShortUrlHandler.
  rewrite Hm, String.eqb_refl, Hd. cbn [negb mbind option_bind].
  by rewrite Hc.
Qed.

Example Decode_empty_object : Json.Decode "{}" = Some (Json.Decoded "").
Proof. vm_compute. reflexivity. Qed.

Example Decode_other_member :
  Json.Decode ("{" +:+ quoted "link" +:+ ": " +:+ quoted "https://example.com" +:+ "}")
  = Some (Json.Decoded "").
Proof. vm_compute. reflexivity. Qed.

Example Decode_not_an_object : Json.Decode "url=https://example.com"
                               = Some (Json.Failed Json.SyntaxError).
Proof. vm_compute. reflexivity. Qed.

Example derive_empty : derive "" = "d41d8cd9".
Proof. vm_compute. reflexivity. Qed.

(** C5, at a body that is JSON but has no [url] member: [Decode] returns
    no error for it and leaves [data.URL] empty, so the handler answers
    201 and stores a row for the empty URL.  The PostgreSQL handler does
    the same. *)
Theorem ShortUrlHandler_accepts_missing_url :
  exists urlDB' urls',
    Mem.ShortUrlHandler 1 (request "POST" "/shorten" "{}") ∅
    = Some (json_short_url "application/json" 201
              "http://localhost:3000/redirect/d41d8cd9", urlDB')
    /\ Mem.OriginalURL <$> urlDB' !! "d41d8cd9" = Some ""
    /\ Pg.ShortUrlHandler None 1 (request "POST" "/shorten" "{}") ∅
       = Some (json_short_url "application/json" 201
                 "http://localhost:3000/r/d41d8cd9", urls')
    /\ Pg.original_url <$> urls' !! "d41d8cd9" = Some "".
Proof.
  exists (<["d41d8cd9" := record_of 1 ""]> ∅),
         (<["d41d8cd9" := {| Pg.original_url := ""; Pg.creation_date := 1 |}]> ∅).
  split_and!.
  - rewrite (ShortUrlHandler_decoded 1 (request "POST" "/shorten" "{}") ∅ ""
               eq_refl Decode_empty_object).
    by rewrite derive_empty.
  - by rewrite lookup_insert_eq.
  - rewrite (Pg_ShortUrlHandler_decoded 1 (request "POST" "/shorten" "{}") ∅
               (<["d41d8cd9" := {| Pg.original_url := ""; Pg.creation_date := 1 |}]> ∅)
               "" "d41d8cd9" eq_refl Decode_empty_object); [reflexivity|].
    by rewrite Pg_createURL_no_fault, derive_empty, lookup_empty.
  - by rewrite lookup_insert_eq.
Qed.

(** What holds of C5: when [Decode] fails, and it does on every body that
    is not JSON, the answer is 400 and the store is untouched. *)
Lemma ShortUrlHandler_bad_request (now : Time) (r : Request)
    (urlDB : gmap string Mem.URL) (e : Json.decode_error) :
  Method r = "POST" ->
  Json.readValue Json.reset (bytes_of_string (Body r)) false [] = inr e ->
  Mem.ShortUrlHandler now r urlDB
  = Some (http_Error "Invalid request body" 400, urlDB).
Proof.
  intros Hm Hd. eapply ShortUrlHandler_failed; [done|]. by apply Decode_not_json.
Qed.

(** ** The short link *)

Lemma append_assoc (a b c : string) : (a +:+ b) +:+ c = a +:+ (b +:+ c).
Proof.
  induction a as [|x a IH]; [reflexivity|].
  change (String x ((a +:+ b) +:+ c) = String x (a +:+ (b +:+ c))).
  by rewrite IH.
Qed.

Lemma append_nil_r (a : string) : a +:+ EmptyString = a.
Proof.
  induction a as [|x a IH]; [reflexivity|].
  change (String x (a +:+ EmptyString) = String x a). by rewrite IH.
Qed.

Lemma last_segment_from_append (seg p str : string) :
  last_segment_from seg (p +:+ str)
  = last_segment_from (last_segment_from seg p) str.
Proof.
  revert seg. induction p as [|c p IH]; intros seg; simpl; [reflexivity|].
  destruct (Ascii.eqb c "/"); apply IH.
Qed.

Lemma last_segment_from_no_slash (seg str : string) :
  string_forall (fun c => negb (Ascii.eqb c "/")) str = true ->
  last_segment_from seg str = seg +:+ str.
Proof.
  revert seg. induction str as [|c str IH]; intros seg H; simpl in *.
  - by rewrite append_nil_r.
  - apply andb_true_iff in H as [Hc H]. apply negb_true_iff in Hc. rewrite Hc.
    rewrite IH by done. apply append_assoc.
Qed.

Lemma string_forall_impl (P Q : ascii -> bool) (str : string) :
  (forall c, P c = true -> Q c = true) ->
  string_forall P str = true -> string_forall Q str = true.
Proof.
  intros HPQ. induction str as [|c str IH]; simpl; [done|].
  intros [Hc H]%andb_true_iff. by rewrite (HPQ c Hc), IH.
Qed.

Lemma lower_hex_not_slash (c : ascii) :
  is_lower_hex c = true -> negb (Ascii.eqb c "/") = true.
Proof.
  intros H. destruct (Ascii.eqb_spec c "/") as [-> | _]; [|reflexivity].
  vm_compute in H. discriminate.
Qed.

Lemma last_segment_derive (p u : string) :
  last_segment (p +:+ String "/" (derive u)) = derive u.
Proof.
  unfold last_segment. rewrite last_segment_from_append.
  cbn [last_segment_from]. rewrite Ascii.eqb_refl.
  apply (last_segment_from_no_slash EmptyString).
  eapply string_forall_impl; [apply lower_hex_not_slash | apply derive_lower_hex].
Qed.

(** C7: a POST to /shorten whose body decodes to the URL [u] is answered
    201 with the content type application/json and a [short_url] of the
    form scheme://host/prefix/id; its final path segment is the
    identifier of [u].  In [main.go] scheme, host and prefix are the fixed
    http, localhost:3000 and redirect; the PostgreSQL handler takes the
    host from the request and the scheme from X-Forwarded-Proto, and its
    prefix is r. *)
Theorem ShortUrlHandler_created (now : Time) (r : Request) (u : string) :
  Method r = "POST" ->
  Json.Decode (Body r) = Some (Json.Decoded u) ->
  exists id,
    Mem.generateShortURL u = Some id
    /\ (forall urlDB, exists short_url urlDB',
          Mem.ShortUrlHandler now r urlDB
          = Some (json_short_url "application/json" 201 short_url, urlDB')
          /\ short_url = "http" +:+ "://" +:+ "localhost:3000" +:+ "/redirect/" +:+ id
          /\ last_segment short_url = id)
    /\ (forall urls, exists short_url urls',
          Pg.ShortUrlHandler None now r urls
          = Some (json_short_url "application/json" 201 short_url, urls')
          /\ short_url
             = (if String.eqb (HeaderGet r "X-Forwarded-Proto") "https"
                then "https" else "http")
               +:+ "://" +:+ Host r +:+ "/r/" +:+ id
          /\ last_segment short_url = id).
Proof.
  intros Hm Hd. exists (derive u). split_and!.
  - apply generateShortURL_derive.
  - intros urlDB. eexists _, _.
    split; [by apply ShortUrlHandler_decoded|]. split; [reflexivity|].
    apply (last_segment_derive "http://localhost:3000/redirect").
  - intros urls. eexists _, _.
    split; [|split; [reflexivity|]].
    + apply (Pg_ShortUrlHandler_decoded now r urls _ u); [done..|].
      apply Pg_createURL_no_fault.
    + rewrite <- (append_assoc _ "://"), <- (append_assoc _ (Host r)).
      change ("/r/" +:+ derive u) with ("/r" +:+ String "/" (derive u)).
      rewrite <- (append_assoc _ "/r"). apply last_segment_derive.
Qed.

Lemma ShortUrlHandler_created_witness :
  exists id,
    Mem.generateShortURL "https://example.com" = Some id
    /\ (forall urlDB, exists short_url urlDB',
          Mem.ShortUrlHandler 1
            (request "POST" "/shorten" (shorten_body "https://example.com")) urlDB
          = Some (json_short_url "application/json" 201 short_url, urlDB')
          /\ short_url = "http://localhost:3000/redirect/" +:+ id
          /\ last_segment short_url = id).
Proof.
  destruct (ShortUrlHandler_created 1
              (request "POST" "/shorten" (shorten_body "https://example.com"))
              "https://example.com" eq_refl)
    as (id & Hid & Hmem & _).
  - vm_compute. reflexivity.
  - exists id. split; [exact Hid | exact Hmem].
Defined.

(** * Further properties of the code *)

(** ** The in-memory store as a function of its history *)

Lemma last_create_lookup (ops : list Mem.op) (urlDB : gmap string Mem.URL) :
  exists urlDB',
    Mem.run ops urlDB = Some urlDB'
    /\ forall id, urlDB' !! id = last_create id ops (urlDB !! id).
Proof.
  revert urlDB. induction ops as [|[now u|id'] ops IH]; intros urlDB.
  - by exists urlDB.
  - destruct (IH (<[derive u := record_of now u]> urlDB)) as (urlDB' & Hrun & Hl).
    exists urlDB'. split; [by step_run|].
    intros id. rewrite Hl. cbn [last_create]. f_equal.
    destruct (String.eqb_spec (derive u) id) as [-> | Hne].
    + by rewrite lookup_insert_eq.
    + by rewrite lookup_insert_ne.
  - destruct (IH urlDB) as (urlDB' & Hrun & Hl).
    exists urlDB'. split; [by step_run | done].
Qed.

(** X2: after any run of creates and gets, the record under an identifier
    is the one written by the last create whose URL derives it, and the
    one from before the run when there was none: a later create wins, and
    nothing is ever removed. *)
Theorem run_last_write_wins (ops : list Mem.op) (urlDB : gmap string Mem.URL) :
  exists urlDB',
    Mem.run ops urlDB = Some urlDB'
    /\ (forall id, urlDB' !! id = last_create id ops (urlDB !! id))
    /\ (forall id, is_Some (urlDB !! id) -> is_Some (urlDB' !! id)).
Proof.
  destruct (last_create_lookup ops urlDB) as (urlDB' & Hrun & Hl).
  exists urlDB'. split_and!; [done..|].
  intros id. rewrite Hl. generalize (urlDB !! id). clear.
  induction ops as [|[now u|id'] ops IH]; intros cur Hcur; cbn [last_create].
  - done.
  - apply IH. by destruct (String.eqb (derive u) id).
  - by apply IH.
Qed.

Lemma run_last_write_wins_witness :
  exists urlDB',
    Mem.run [Mem.Create 1 "https://example.com/1548"; Mem.Get "7f17b0c9";
             Mem.Create 2 "https://example.com/2133"] ∅ = Some urlDB'
    /\ Mem.OriginalURL <$> urlDB' !! "7f17b0c9" = Some "https://example.com/2133".
Proof.
  destruct (run_last_write_wins
              [Mem.Create 1 "https://example.com/1548"; Mem.Get "7f17b0c9";
               Mem.Create 2 "https://example.com/2133"] ∅)
    as (urlDB' & Hrun & Hl & _).
  exists urlDB'. split; [exact Hrun|]. rewrite Hl. vm_compute. reflexivity.
Defined.

(** ** Colliding identifiers *)

Lemma Pg_getURL_no_fault (id : string) (urls : gmap string Pg.row) :
  Pg.getURL None id urls
  = match urls !! id with
    | Some r => (Pg.original_url r, None)
    | None => (EmptyString, Some (Pg.NotFound id))
    end.
Proof. unfold Pg.getURL, Pg.QueryRow. by destruct (urls !! id). Qed.

(** X3: when two URLs have the same identifier, the in-memory store
    serves the one created last, the PostgreSQL store (no row for the
    identifier before, no fault) the one created first; both creates
    succeed in both stores. *)
Theorem collision_last_or_first (now1 now2 : Time) (u1 u2 : string) :
  Mem.generateShortURL u1 = Mem.generateShortURL u2 ->
  (forall urlDB, exists id urlDB1 urlDB2 url,
      Mem.createURL now1 u1 urlDB = Some (id, urlDB1)
      /\ Mem.createURL now2 u2 urlDB1 = Some (id, urlDB2)
      /\ Mem.getURL id urlDB2 = (url, None)
      /\ Mem.OriginalURL url = u2)
  /\ (forall urls id,
        Pg.generateShortURL u1 = Some id ->
        urls !! id = None ->
        exists urls1 urls2,
          Pg.createURL None now1 u1 urls = Some (id, None, urls1)
          /\ Pg.createURL None now2 u2 urls1 = Some (id, None, urls2)
          /\ Pg.getURL None id urls2 = (u1, None)).
Proof.
  rewrite !generateShortURL_derive. intros [= Hd]. split.
  - intros urlDB. eexists _, _, _, (record_of now2 u2).
    rewrite !createURL_eq, <- Hd. split_and!; [reflexivity.. | | reflexivity].
    apply getURL_found, lookup_insert_eq.
  - intros urls id [= <-] Hfree. eexists _, _.
    rewrite !Pg_createURL_no_fault, <- Hd, Hfree, lookup_insert_eq.
    split_and!; [reflexivity..|].
    by rewrite Pg_getURL_no_fault, lookup_insert_eq.
Qed.

Lemma collision_last_or_first_witness :
  exists id urlDB1 urlDB2 url,
    Mem.createURL 1 "https://example.com/1548" ∅ = Some (id, urlDB1)
    /\ Mem.createURL 2 "https://example.com/2133" urlDB1 = Some (id, urlDB2)
    /\ Mem.getURL id urlDB2 = (url, None)
    /\ Mem.OriginalURL url = "https://example.com/2133".
Proof.
  refine (proj1 (collision_last_or_first 1 2 "https://example.com/1548"
                   "https://example.com/2133" _) ∅).
  vm_compute. reflexivity.
Defined.

(** ** From the short link back to the URL *)



(** ** The PostgreSQL store *)

(** X5: [createURL] never updates or deletes: whatever the outcome of the
    insert, every row of the table is still there unchanged, and the only
    row that can be new is the one for the URL, under its identifier,
    when the call returned no error. *)
Theorem Pg_createURL_keeps_rows (fault : option Pg.sql_error) (now : Time)
    (u : string) (urls : gmap string Pg.row) :
  exists id err urls',
    Pg.createURL fault now u urls = Some (id, err, urls')
    /\ (forall k row, urls !! k = Some row -> urls' !! k = Some row)
    /\ (forall k row,
          urls' !! k = Some row ->
          urls !! k = Some row
          \/ (urls !! k = None /\ err = None /\ k = id
              /\ row = {| Pg.original_url := u; Pg.creation_date := now |})).
Proof.
  unfold Pg.createURL. rewrite Pg_generateShortURL_eq, generateShortURL_derive.
  cbn [mbind option_bind]. unfold Pg.ExecInsert.
  destruct fault as [[code|msg]|].
  - destruct (String.eqb code Pg.unique_violation); eexists _, _, _;
      (split; [reflexivity|]); split; auto.
  - eexists _, _, _. split; [reflexivity|]. split; auto.
  - destruct (urls !! derive u) as [row0|] eqn:Hrow; eexists _, _, _;
      (split; [reflexivity|]); split; auto.
    + intros k row Hk. destruct (decide (derive u = k)) as [<- | Hne].
      * congruence.
      * by rewrite lookup_insert_ne.
    + intros k row. destruct (decide (derive u = k)) as [<- | Hne].
      * rewrite lookup_insert_eq. intros [= <-]. by right.
      * rewrite lookup_insert_ne by done. by left.
Qed.

(** X6: after a [createURL] without fault, [getURL] on the identifier it
    returned succeeds; it returns the URL just given when the identifier
    had no row, and the URL of the row that was there otherwise. *)
Theorem Pg_get_after_create (now : Time) (u : string) (urls : gmap string Pg.row) :
  exists id urls',
    Pg.createURL None now u urls = Some (id, None, urls')
    /\ Pg.getURL None id urls'
       = (match urls !! id with
          | Some row => Pg.original_url row
          | None => u
          end, None).
Proof.
  eexists _, _. split; [apply Pg_createURL_no_fault|].
  rewrite Pg_getURL_no_fault.
  destruct (urls !! derive u) as [row|] eqn:Hrow.
  - by rewrite Hrow.
  - by rewrite lookup_insert_eq.
Qed.

(** X7: [redirectURLHandler] answers 404 unless the query succeeds and
    finds a row: a failure of the database during the lookup is answered
    like a missing row.  On a row it answers 302 with the [Location] that
    [http.Redirect] makes of the stored URL, which is the stored URL
    itself when that begins with a scheme and consists of visible ASCII
    characters. *)
Theorem Pg_redirect_found_or_404 (fault : option Pg.sql_error) (r : Request)
    (id : string) (urls : gmap string Pg.row) :
  Path r = "/r/" +:+ id ->
  Pg.redirectURLHandler fault r urls
  = Some match fault, urls !! id with
         | None, Some row =>
             http_Redirect (Http.Location (Path r) (Pg.original_url row)) 302
         | _, _ => http_Error "Link not found or has expired" 404
         end
  /\ (forall row,
        fault = None -> urls !! id = Some row ->
        has_scheme (Pg.original_url row) = true ->
        visible_ascii (Pg.original_url row) = true ->
        Pg.redirectURLHandler fault r urls
        = Some (http_Redirect (Pg.original_url row) 302)).
Proof.
  intros Hpath. split; [by apply Pg_redirectURLHandler_eq|].
  intros row -> Hid Hs Ha.
  rewrite (Pg_redirectURLHandler_eq None r id urls Hpath), Hid.
  by rewrite Location_absolute.
Qed.

Lemma Pg_redirect_found_or_404_witness :
  Pg.redirectURLHandler (Some (Pg.ConnError "connection refused"))
    (request "GET" "/r/c984d06a" "")
    (<["c984d06a" := row_of 1 "https://example.com"]> ∅)
  = Some (http_Error "Link not found or has expired" 404)
  /\ Pg.redirectURLHandler None
       (request "GET" "/r/c984d06a" "")
       (<["c984d06a" := row_of 1 "https://example.com"]> ∅)
     = Some (http_Redirect "https://example.com" 302).
Proof.
  split.
  - exact (proj1 (Pg_redirect_found_or_404
                    (Some (Pg.ConnError "connection refused"))
                    (request "GET" "/r/c984d06a" "") "c984d06a"
                    (<["c984d06a" := row_of 1 "https://example.com"]> ∅)
                    eq_refl)).
  - apply (proj2 (Pg_redirect_found_or_404 None
                    (request "GET" "/r/c984d06a" "") "c984d06a"
                    (<["c984d06a" := row_of 1 "https://example.com"]> ∅)
                    eq_refl) (row_of 1 "https://example.com") eq_refl).
    + apply lookup_insert_eq.
    + reflexivity.
    + reflexivity.
Defined.

(** X8: when the insert fails with anything but a unique violation, the
    POST is answered 500 and the table is the one before the request. *)
Theorem Pg_ShortUrlHandler_storage_failure (cause : Pg.sql_error) (now : Time)
    (r : Request) (u : string) (urls : gmap string Pg.row) :
  Method r = "POST" ->
  Json.Decode (Body r) = Some (Json.Decoded u) ->
  cause <> Pg.PgError "23505" ->
  Pg.ShortUrlHandler (Some cause) now r urls
  = Some (http_Error "Internal server error" 500, urls).
Proof.
  intros Hm Hd Hc. unfold Pg.ShortUrlHandler, MethodPost.
  rewrite Hm, String.eqb_refl, Hd. cbn [negb mbind option_bind].
  unfold Pg.createURL. rewrite Pg_generateShortURL_eq, generateShortURL_derive.
  cbn [mbind option_bind Pg.ExecInsert].
  destruct cause as [code|msg]; [|reflexivity].
  destruct (String.eqb_spec code Pg.unique_violation) as [-> | Hne]; [done | reflexivity].
Qed.

Lemma Pg_ShortUrlHandler_storage_failure_witness :
  Pg.ShortUrlHandler (Some (Pg.ConnError "connection refused")) 1
    (request "POST" "/shorten" (shorten_body "https://example.com")) ∅
  = Some (http_Error "Internal server error" 500, ∅).
Proof.
  apply (Pg_ShortUrlHandler_storage_failure (Pg.ConnError "connection refused") 1
           (request "POST" "/shorten" (shorten_body "https://example.com"))
           "https://example.com" ∅ eq_refl).
  - vm_compute. reflexivity.
  - discriminate.
Defined.

(** X9: a POST for a URL whose identifier already has a row is answered
    201 with the link to that identifier and leaves the table as it is,
    whatever URL the row holds. *)
Theorem Pg_ShortUrlHandler_existing_row (now : Time) (r : Request) (u id : string)
    (urls : gmap string Pg.row) :
  Method r = "POST" ->
  Json.Decode (Body r) = Some (Json.Decoded u) ->
  Pg.generateShortURL u = Some id ->
  is_Some (urls !! id) ->
  exists scheme,
    Pg.ShortUrlHandler None now r urls
    = Some (json_short_url "application/json" 201
              (scheme +:+ "://" +:+ Host r +:+ "/r/" +:+ id), urls)
    /\ (scheme = "https" \/ scheme = "http").
Proof.
  intros Hm Hd Hid [row Hrow].
  rewrite Pg_generateShortURL_eq, generateShortURL_derive in Hid.
  injection Hid as <-. eexists. split.
  - apply (Pg_ShortUrlHandler_decoded now r urls urls u); [done..|].
    by rewrite Pg_createURL_no_fault, Hrow.
  - destruct (String.eqb _ _); auto.
Qed.

Lemma Pg_ShortUrlHandler_existing_row_witness :
  exists scheme,
    Pg.ShortUrlHandler None 2
      (request "POST" "/shorten" (shorten_body "https://example.com/2133"))
      (<["7f17b0c9" := row_of 1 "https://example.com/1548"]> ∅)
    = Some (json_short_url "application/json" 201
              (scheme +:+ "://" +:+ "localhost:3000" +:+ "/r/" +:+ "7f17b0c9"),
            <["7f17b0c9" := row_of 1 "https://example.com/1548"]> ∅)
    /\ (scheme = "https" \/ scheme = "http").
Proof.
  apply (Pg_ShortUrlHandler_existing_row 2
           (request "POST" "/shorten" (shorten_body "https://example.com/2133"))
           "https://example.com/2133" "7f17b0c9"
           (<["7f17b0c9" := row_of 1 "https://example.com/1548"]> ∅) eq_refl).
  - vm_compute. reflexivity.
  - vm_compute. reflexivity.
  - rewrite lookup_insert_eq. by eexists.
Defined.

(** ** The decoder never panics *)

Module JsonSyncFacts.
Import Json JsonSync.

Lemma scan_step_str (st : state) (ps : list pstate) (c : Z) :
  is_str st = true ->
  scan_step {| step := st; parseState := ps |} c
  = match sstep st c with
    | Some st' => ({| step := st'; parseState := ps |}, scanContinue)
    | None => ({| step := stateError; parseState := ps |}, scanError)
    end.
Proof.
  intros Hs. unfold sstep. rewrite Hs.
  destruct st; try discriminate; cbn [scan_step step];
    unfold do_stateInString, do_stateInStringEsc, expect, error, goto;
    cbn [step parseState];
    repeat (case_match; try reflexivity).
Qed.

Lemma srun_snoc (st : state) (l : list Z) (c : Z) :
  srun st (l ++ [c]) = srun st l ≫= fun st' => sstep st' c.
Proof.
  revert st. induction l as [|x l IH]; intros st; cbn [app srun].
  - cbn. by destruct (sstep st c).
  - destruct (sstep st x); [apply IH | done].
Qed.

Lemma sstep_EndValue (st : state) (c : Z) :
  sstep st c = Some stateEndValue -> st = stateInString /\ c = quote.
Proof.
  unfold sstep. destruct st; try discriminate; cbn [is_str scan_step step];
    unfold do_stateInString, do_stateInStringEsc, expect, error, goto;
    cbn [step parseState]; repeat case_match; intros [=]; simplify_eq/=.
  split; [done|]. by apply Z.eqb_eq.
Qed.

Lemma sstep_closed (st : state) (c : Z) (st' : state) :
  sstep st c = Some st' -> is_str st = true /\ (is_str st' = true \/ st' = stateEndValue).
Proof.
  unfold sstep. destruct st; try discriminate; cbn [is_str scan_step step];
    unfold do_stateInString, do_stateInStringEsc, expect, error, goto;
    cbn [step parseState]; repeat case_match; intros [=]; simplify_eq/=; auto.
Qed.

Lemma srun_closed (l : list Z) (st : state) :
  srun stateInString l = Some st -> is_str st = true \/ st = stateEndValue.
Proof.
  revert st. induction l as [|c l IH] using rev_ind; intros st.
  - intros [= <-]. by left.
  - rewrite srun_snoc. destruct (srun stateInString l) as [st0|]; [|done].
    cbn. intros H. by apply sstep_closed in H as [_ H].
Qed.

Lemma srun_EndValue (l : list Z) :
  srun stateInString l = Some stateEndValue ->
  exists body, l = body ++ [quote] /\ srun stateInString body = Some stateInString.
Proof.
  destruct l as [|c l _] using rev_ind; [discriminate|].
  rewrite srun_snoc. destruct (srun stateInString l) as [st0|] eqn:Hl; [|done].
  cbn. intros [-> ->]%sstep_EndValue. by exists l.
Qed.

Ltac ch_norm :=
  unfold quote, backslash in *;
  repeat match goal with
         | |- context [ch ?a] =>
             let v := eval vm_compute in (ch a) in change (ch a) with v
         | H : context [ch ?a] |- _ =>
             let v := eval vm_compute in (ch a) in change (ch a) with v in H
         end.

Lemma sstep_InString (c : Z) :
  sstep stateInString c
  = if c =? quote then Some stateEndValue
    else if c =? backslash then Some stateInStringEsc
    else if c <? 0x20 then None else Some stateInString.
Proof.
  unfold sstep. cbn [is_str scan_step step]. unfold do_stateInString, error, goto.
  repeat case_match; simplify_eq/=; done.
Qed.

Lemma sstep_Esc (e : Z) :
  sstep stateInStringEsc e
  = if (e =? ch "b") || (e =? ch "f") || (e =? ch "n") || (e =? ch "r")
       || (e =? ch "t") || (e =? backslash) || (e =? ch "/") || (e =? quote)
    then Some stateInString
    else if e =? ch "u" then Some stateInStringEscU else None.
Proof.
  unfold sstep. cbn [is_str scan_step step]. unfold do_stateInStringEsc, error, goto.
  repeat case_match; simplify_eq/=; done.
Qed.

Lemma sstep_hex (st : state) (c : Z) :
  sstep st c
  = match st with
    | stateInStringEscU => if isHex c then Some stateInStringEscU1 else None
    | stateInStringEscU1 => if isHex c then Some stateInStringEscU12 else None
    | stateInStringEscU12 => if isHex c then Some stateInStringEscU123 else None
    | stateInStringEscU123 => if isHex c then Some stateInString else None
    | _ => sstep st c
    end.
Proof.
  destruct st; try reflexivity; unfold sstep; cbn [is_str scan_step step];
    unfold expect, error, goto; repeat case_match; simplify_eq/=; done.
Qed.

Lemma hexval_isHex (c : Z) :
  isHex c = true -> exists v, hexval c = Some v /\ 0 <= v < 16.
Proof.
  unfold isHex, hexval, isDigit. ch_norm. intros H.
  repeat case_match; try (eexists; split; [reflexivity | lia]).
  exfalso. repeat (apply orb_true_iff in H as [H|H]); congruence.
Qed.

Lemma four_hex (a b c d : Z) :
  isHex a = true -> isHex b = true -> isHex c = true -> isHex d = true ->
  forall t, 0 <= getu4 (backslash :: ch "u" :: a :: b :: c :: d :: t).
Proof.
  intros (va & Ha & ?)%hexval_isHex (vb & Hb & ?)%hexval_isHex
         (vc & Hc & ?)%hexval_isHex (vd & Hd & ?)%hexval_isHex t.
  unfold getu4. rewrite Ha, Hb, Hc, Hd. ch_norm. cbn. lia.
Qed.

Lemma getu4_valid (p : list Z) :
  0 <= getu4 p ->
  exists a b c d t,
    p = backslash :: ch "u" :: a :: b :: c :: d :: t
    /\ isHex a = true /\ isHex b = true /\ isHex c = true /\ isHex d = true.
Proof.
  unfold getu4. destruct p as [|x0 [|x1 [|a [|b [|c [|d t]]]]]]; try lia.
  destruct ((x0 =? backslash) && (x1 =? ch "u")) eqn:Hx; [|lia].
  apply andb_true_iff in Hx as [->%Z.eqb_eq ->%Z.eqb_eq].
  assert (Hh : forall h, isHex h = false -> hexval h = None).
  { intros h. unfold isHex, hexval, isDigit. ch_norm. intros Hh.
    repeat case_match; try done; simplify_eq/=. }
  intros H. exists a, b, c, d, t. split; [done|].
  destruct (isHex a) eqn:Ea; [|rewrite (Hh a Ea) in H; lia].
  destruct (isHex b) eqn:Eb;
    [|rewrite (Hh b Eb) in H; destruct (hexval a); lia].
  destruct (isHex c) eqn:Ec;
    [|rewrite (Hh c Ec) in H; destruct (hexval a), (hexval b); lia].
  destruct (isHex d) eqn:Ed;
    [|rewrite (Hh d Ed) in H; destruct (hexval a), (hexval b), (hexval c); lia].
  done.
Qed.

(** The bytes [DecodeRune] reads after the first one are continuation
    bytes. *)
Lemma DecodeRune_width (p0 : Z) (t : list Z) (rr : Z) (size : nat) :
  DecodeRune (p0 :: t) = (rr, size) ->
  match size, t with
  | 2%nat, b1 :: _ => 0x80 <= b1
  | 3%nat, b1 :: b2 :: _ => 0x80 <= b1 /\ 0x80 <= b2
  | 4%nat, b1 :: b2 :: b3 :: _ => 0x80 <= b1 /\ 0x80 <= b2 /\ 0x80 <= b3
  | _, _ => True
  end.
Proof.
  unfold DecodeRune, isCont.
  repeat case_match; intros [=]; simplify_eq/=; try done;
    repeat match goal with
           | H : (_ || _) = false |- _ => apply orb_false_iff in H as [? ?]
           | H : negb _ = false |- _ => apply negb_false_iff in H
           | H : (_ && _) = true |- _ => apply andb_true_iff in H as [? ?]
           | H : (_ <? _) = false |- _ => apply Z.ltb_ge in H
           | H : (_ <=? _) = true |- _ => apply Z.leb_le in H
           end; lia.
Qed.

Lemma sstep_cont (b : Z) : 0x80 <= b -> sstep stateInString b = Some stateInString.
Proof.
  intros H. rewrite sstep_InString. ch_norm.
  destruct (Z.eqb_spec b 34); [lia|]. destruct (Z.eqb_spec b 92); [lia|].
  destruct (Z.ltb_spec b 32); [lia | done].
Qed.

Lemma srun_EndValue_stuck (l : list Z) (st : state) :
  srun stateEndValue l = Some st -> l = [] /\ st = stateEndValue.
Proof. destruct l; cbn; [by intros [= <-] | discriminate]. Qed.

Lemma srun_hex4 (t1 : list Z) :
  srun stateInStringEscU t1 = Some stateInString ->
  exists h1 h2 h3 h4 t5,
    t1 = h1 :: h2 :: h3 :: h4 :: t5
    /\ isHex h1 = true /\ isHex h2 = true /\ isHex h3 = true /\ isHex h4 = true
    /\ srun stateInString t5 = Some stateInString.
Proof.
  destruct t1 as [|h1 [|h2 [|h3 [|h4 t5]]]]; cbn [srun];
    repeat (first [ rewrite (sstep_hex stateInStringEscU)
                  | rewrite (sstep_hex stateInStringEscU1)
                  | rewrite (sstep_hex stateInStringEscU12)
                  | rewrite (sstep_hex stateInStringEscU123) ];
            match goal with
            | |- context [isHex ?h] => destruct (isHex h) eqn:?
            end; cbn [srun]); try discriminate.
  intros Hrun. by exists h1, h2, h3, h4, t5.
Qed.

Lemma srun_escape_u (a b c d : Z) (t : list Z) :
  isHex a = true -> isHex b = true -> isHex c = true -> isHex d = true ->
  srun stateInString (backslash :: ch "u" :: a :: b :: c :: d :: t)
  = srun stateInString t.
Proof.
  intros Ha Hb Hc Hd. cbn [srun].
  change (sstep stateInString backslash) with (Some stateInStringEsc). cbn match.
  change (sstep stateInStringEsc (ch "u")) with (Some stateInStringEscU). cbn match.
  rewrite (sstep_hex stateInStringEscU), Ha, (sstep_hex stateInStringEscU1), Hb,
    (sstep_hex stateInStringEscU12), Hc, (sstep_hex stateInStringEscU123), Hd.
  reflexivity.
Qed.

Lemma unquote_body_valid (n : nat) (body : list Z) :
  (length body <= n)%nat ->
  srun stateInString body = Some stateInString ->
  is_Some (unquote_body body).
Proof.
  revert body. induction n as [|n IH]; intros [|c t] Hlen Hrun;
    cbn [length] in Hlen; try lia; try by eexists.
  cbn [srun] in Hrun. cbn [unquote_body].
  rewrite sstep_InString in Hrun.
  destruct (Z.eqb_spec c quote) as [-> | Hq].
  { by apply srun_EndValue_stuck in Hrun as [_ [=]]. }
  destruct (Z.eqb_spec c backslash) as [-> | Hb].
  - (* an escape *)
    destruct t as [|e t1]; [discriminate|]. cbn [srun] in Hrun.
    rewrite sstep_Esc in Hrun. cbn [length] in Hlen.
    destruct (Z.eqb_spec e quote) as [-> | ?];
      [apply fmap_is_Some, IH; [lia | exact Hrun] |].
    destruct (Z.eqb_spec e backslash) as [-> | ?];
      [apply fmap_is_Some, IH; [lia | exact Hrun] |].
    destruct (Z.eqb_spec e (ch "/")) as [-> | ?];
      [apply fmap_is_Some, IH; [lia | exact Hrun] |].
    destruct (Z.eqb_spec e 39) as [-> | ?]; [discriminate Hrun |].
    cbn [orb].
    destruct (Z.eqb_spec e (ch "b")) as [-> | ?];
      [apply fmap_is_Some, IH; [lia | exact Hrun] |].
    destruct (Z.eqb_spec e (ch "f")) as [-> | ?];
      [apply fmap_is_Some, IH; [lia | exact Hrun] |].
    destruct (Z.eqb_spec e (ch "n")) as [-> | ?];
      [apply fmap_is_Some, IH; [lia | exact Hrun] |].
    destruct (Z.eqb_spec e (ch "r")) as [-> | ?];
      [apply fmap_is_Some, IH; [lia | exact Hrun] |].
    destruct (Z.eqb_spec e (ch "t")) as [-> | ?];
      [apply fmap_is_Some, IH; [lia | exact Hrun] |].
    cbn [orb] in Hrun.
    destruct (Z.eqb_spec e (ch "u")) as [-> | ?]; [|discriminate].
    apply srun_hex4 in Hrun as (h1 & h2 & h3 & h4 & t5 & -> & ? & ? & ? & ? & Hrun).
    pose proof (four_hex h1 h2 h3 h4 ltac:(done) ltac:(done) ltac:(done) ltac:(done) t5)
      as Hrr.
    destruct (Z.ltb_spec (getu4 (backslash :: ch "u" :: h1 :: h2 :: h3 :: h4 :: t5)) 0);
      [lia|].
    cbn [length] in Hlen.
    destruct (IsSurrogate _); [|apply fmap_is_Some, IH; [lia | exact Hrun]].
    destruct (DecodeSurrogates _ (getu4 t5) =? RuneError) eqn:Hdec; cbn [negb];
      [apply fmap_is_Some, IH; [lia | exact Hrun] |].
    assert (Hu : 0 <= getu4 t5).
    { unfold DecodeSurrogates in Hdec. apply Z.eqb_neq in Hdec.
      destruct (_ && _) eqn:Hin; [|done].
      repeat (apply andb_true_iff in Hin as [Hin ?]). lia. }
    apply getu4_valid in Hu as (a & b & c & d & t11 & -> & Ha & Hb' & Hc & Hd).
    apply fmap_is_Some, IH; [cbn [length] in *; lia|].
    by rewrite srun_escape_u in Hrun.
  - destruct (Z.ltb_spec c 0x20) as [|Hc]; [discriminate|]. cbn [orb].
    destruct (Z.ltb_spec c 0x80).
    + apply fmap_is_Some, IH; [lia | exact Hrun].
    + destruct (DecodeRune (c :: t)) as [rr size] eqn:Hdr.
      apply DecodeRune_width in Hdr.
      destruct size as [|[|[|[|[|size]]]]];
        try (apply fmap_is_Some, IH; [lia | exact Hrun]).
      * destruct t as [|b1 t2]; [by eexists|].
        cbn [srun] in Hrun. rewrite (sstep_cont b1) in Hrun by done.
        apply fmap_is_Some, IH; [cbn [length] in Hlen; lia | exact Hrun].
      * destruct t as [|b1 [|b2 t3]];
          try (apply fmap_is_Some, IH; [lia | exact Hrun]).
        destruct Hdr as [? ?]. cbn [srun] in Hrun.
        rewrite (sstep_cont b1), (sstep_cont b2) in Hrun by done.
        apply fmap_is_Some, IH; [cbn [length] in Hlen; lia | exact Hrun].
      * destruct t as [|b1 [|b2 [|b3 t4]]];
          try (apply fmap_is_Some, IH; [lia | exact Hrun]).
        destruct Hdr as (? & ? & ?). cbn [srun] in Hrun.
        rewrite (sstep_cont b1) in Hrun by done. cbn [srun] in Hrun.
        rewrite (sstep_cont b2) in Hrun by done. cbn [srun] in Hrun.
        rewrite (sstep_cont b3) in Hrun by done.
        apply fmap_is_Some, IH; [cbn [length] in Hlen; lia | exact Hrun].
Qed.

Lemma unquoteBytes_valid (rest : list Z) :
  srun stateInString rest = Some stateEndValue ->
  is_Some (unquoteBytes (quote :: rest)).
Proof.
  intros (body & -> & Hbody)%srun_EndValue.
  unfold unquoteBytes. rewrite rev_app_distr. cbn [rev app].
  rewrite rev_involutive. change ((quote =? quote) && (quote =? quote)) with true.
  cbn match. by apply (unquote_body_valid (length body)).
Qed.

Ltac scan_unfold :=
  unfold do_stateBeginValueOrEmpty, do_stateBeginStringOrEmpty, do_stateBeginString,
    do_stateBeginValue, do_state1, do_state0, do_stateNeg, do_stateDot0, do_stateE,
    do_stateESign, do_stateE0, do_stateEndValue, do_stateEndTop, do_stateInString,
    do_stateInStringEsc, expect, pushParseState, popParseState, error, goto in *;
  cbn [step parseState] in *.

Lemma do_stateEndValue_step (st : state) (ps : list pstate) (c : Z) :
  do_stateEndValue {| step := st; parseState := ps |} c
  = do_stateEndValue {| step := stateEndValue; parseState := ps |} c.
Proof. scan_unfold. by repeat case_match. Qed.

(** A byte in a literal that is not a string: the literal goes on, or the
    byte is rejected, or the literal is over and the byte is read as the
    one after a value. *)
Lemma lit_step (st : state) (ps : list pstate) (c : Z) :
  lit_state st = true ->
  (exists st', scan_step {| step := st; parseState := ps |} c
               = ({| step := st'; parseState := ps |}, scanContinue)
               /\ lit_state st' = true)
  \/ snd (scan_step {| step := st; parseState := ps |} c) = scanError
  \/ scan_step {| step := st; parseState := ps |} c
     = do_stateEndValue {| step := stateEndValue; parseState := ps |} c.
Proof.
  intros Hs.
  destruct st; try discriminate; cbn [scan_step step];
    try (right; right; apply do_stateEndValue_step).
  all: unfold do_state1, do_state0, do_stateNeg, do_stateDot0, do_stateE,
         do_stateESign, do_stateE0, expect, error, goto; cbn [step parseState].
  all: repeat case_match; eauto using do_stateEndValue_step.
Qed.

(** What one byte does to the stack of a scanner inside a composite
    value. *)
Lemma stack_step (st : state) (p : pstate) (ps : list pstate) (c : Z)
    (sc' : scanner) (op : opcode) :
  scan_step {| step := st; parseState := p :: ps |} c = (sc', op) ->
  op <> scanEnd -> op <> scanError ->
  match op with
  | scanBeginObject | scanBeginArray =>
      exists p', parseState sc' = p' :: p :: ps /\ step sc' <> stateEndTop
  | scanEndObject | scanEndArray =>
      parseState sc' = ps
      /\ step sc' = match ps with [] => stateEndTop | _ => stateEndValue end
  | _ => exists p', parseState sc' = p' :: ps /\ step sc' <> stateEndTop
  end.
Proof.
  destruct st; cbn [scan_step step]; scan_unfold;
    repeat case_match; intros; simplify_eq/=; eauto.
Qed.

Lemma StrLit_start : StrLit stateInString [quote].
Proof. by exists []. Qed.

Lemma StrLit_snoc (st st' : state) (item : list Z) (c : Z) :
  StrLit st item -> sstep st c = Some st' -> StrLit st' (c :: item).
Proof.
  intros (rest & Hrev & Hrun) Hc. exists (rest ++ [c]). split.
  - cbn [rev]. by rewrite Hrev.
  - rewrite srun_snoc, Hrun. exact Hc.
Qed.

Lemma StrLit_state (st : state) (item : list Z) :
  StrLit st item -> is_str st = true \/ st = stateEndValue.
Proof. intros (rest & _ & Hrun). by apply srun_closed in Hrun. Qed.

Lemma StrLit_unquote (item : list Z) :
  StrLit stateEndValue item -> is_Some (unquoteBytes (rev item)).
Proof. intros (rest & -> & Hrun). by apply unquoteBytes_valid. Qed.

(** A literal that is over can be stored, into the field or into the
    struct. *)
Lemma LitOK_field (st : state) (item : list Z) (d : decodeState) :
  LitOK st item -> is_str st = false ->
  is_Some (literalStore_field (rev item) d).
Proof.
  intros [Hs | (c0 & rest & -> & Hc & _)] Hst.
  - destruct (StrLit_state _ _ Hs) as [? | ->]; [congruence|].
    destruct (StrLit_unquote _ Hs) as [bs Hbs].
    destruct Hs as (rest & Hrev & _). rewrite Hrev in *.
    unfold literalStore_field. rewrite Hbs. by repeat case_match.
  - unfold literalStore_field.
    destruct (Z.eqb_spec c0 quote); [done|]. by repeat case_match.
Qed.

Lemma LitOK_struct (st : state) (item : list Z) (d : decodeState) :
  LitOK st item -> is_str st = false ->
  is_Some (literalStore_struct (rev item) d).
Proof.
  intros [Hs | (c0 & rest & -> & Hc & _)] Hst.
  - destruct (StrLit_state _ _ Hs) as [? | ->]; [congruence|].
    destruct (StrLit_unquote _ Hs) as [bs Hbs].
    destruct Hs as (rest & Hrev & _). rewrite Hrev in *.
    unfold literalStore_struct. rewrite Hbs. by repeat case_match.
  - unfold literalStore_struct.
    destruct (Z.eqb_spec c0 quote); [done|]. by repeat case_match.
Qed.

Lemma LitOK_snoc (st st' : state) (ps : list pstate) (item : list Z) (c : Z) :
  LitOK st item ->
  scan_step {| step := st; parseState := ps |} c
  = ({| step := st'; parseState := ps |}, scanContinue) ->
  LitOK st' (c :: item).
Proof.
  intros [Hs | (c0 & rest & Hrev & Hc & Hst)] Hstep.
  - left. destruct (StrLit_state _ _ Hs) as [Hstr | ->].
    + rewrite (scan_step_str _ _ _ Hstr) in Hstep.
      destruct (sstep st c) as [st''|] eqn:Hss; [|discriminate].
      injection Hstep as <-. by eapply StrLit_snoc.
    + cbn [scan_step step] in Hstep. scan_unfold.
      repeat case_match; discriminate.
  - right. exists c0, (rest ++ [c]). split; [cbn [rev]; by rewrite Hrev|].
    split; [done|].
    destruct (lit_step st ps c Hst) as [(st'' & Hst'' & Hl) | [Herr | Hend]].
    + rewrite Hstep in Hst''. by injection Hst'' as <-.
    + by rewrite Hstep in Herr.
    + rewrite Hstep in Hend. symmetry in Hend. scan_unfold.
      repeat case_match; discriminate.
Qed.

Lemma lit_not_str (st : state) : lit_state st = true -> is_str st = false.
Proof. by destruct st. Qed.

Lemma LitOK_step (st : state) (ps : list pstate) (item : list Z) (c : Z) :
  LitOK st item ->
  (exists st', scan_step {| step := st; parseState := ps |} c
               = ({| step := st'; parseState := ps |}, scanContinue)
               /\ LitOK st' (c :: item))
  \/ snd (scan_step {| step := st; parseState := ps |} c) = scanError
  \/ (is_str st = false
      /\ scan_step {| step := st; parseState := ps |} c
         = do_stateEndValue {| step := stateEndValue; parseState := ps |} c).
Proof.
  intros Hl. assert (Hl' := Hl).
  destruct Hl as [Hs | (c0 & rest & Hrev & Hc & Hst)].
  - destruct (StrLit_state _ _ Hs) as [Hstr | ->].
    + rewrite (scan_step_str _ _ _ Hstr).
      destruct (sstep st c) as [st'|] eqn:Hss; [left | right; by left].
      exists st'. split; [done|]. left. by eapply StrLit_snoc.
    + right; right. done.
  - destruct (lit_step st ps c Hst) as [(st' & Hst' & Hl) | [Herr | Hend]].
    + left. exists st'. split; [done|]. by eapply LitOK_snoc.
    + right; by left.
    + right; right. split; [by apply lit_not_str | done].
Qed.

Lemma StrLit_step (st : state) (ps : list pstate) (item : list Z) (c : Z) :
  StrLit st item ->
  (exists st', scan_step {| step := st; parseState := ps |} c
               = ({| step := st'; parseState := ps |}, scanContinue)
               /\ StrLit st' (c :: item))
  \/ snd (scan_step {| step := st; parseState := ps |} c) = scanError
  \/ (st = stateEndValue
      /\ scan_step {| step := st; parseState := ps |} c
         = do_stateEndValue {| step := stateEndValue; parseState := ps |} c).
Proof.
  intros Hs. destruct (StrLit_state _ _ Hs) as [Hstr | ->].
  - rewrite (scan_step_str _ _ _ Hstr).
    destruct (sstep st c) as [st'|] eqn:Hss; [left | right; by left].
    exists st'. split; [done|]. by eapply StrLit_snoc.
  - right; right. done.
Qed.

Lemma endvalue_top (c : Z) :
  snd (do_stateEndValue {| step := stateEndValue; parseState := [] |} c) = scanEnd.
Proof. scan_unfold. by case_match. Qed.

Lemma endvalue_key (c : Z) (sc' : scanner) (op : opcode) :
  do_stateEndValue {| step := stateEndValue; parseState := [parseObjectKey] |} c
  = (sc', op) ->
  op <> scanError ->
  (sc' = {| step := stateEndValue; parseState := [parseObjectKey] |}
   /\ op = scanSkipSpace)
  \/ (sc' = {| step := stateBeginValue; parseState := [parseObjectValue] |}
      /\ op = scanObjectKey).
Proof. scan_unfold. repeat case_match; intros; simplify_eq/=; auto. Qed.

Lemma endvalue_value (c : Z) (sc' : scanner) (op : opcode) :
  do_stateEndValue {| step := stateEndValue; parseState := [parseObjectValue] |} c
  = (sc', op) ->
  op <> scanError ->
  (sc' = {| step := stateEndValue; parseState := [parseObjectValue] |}
   /\ op = scanSkipSpace)
  \/ (sc' = {| step := stateBeginString; parseState := [parseObjectKey] |}
      /\ op = scanObjectValue)
  \/ (sc' = {| step := stateEndTop; parseState := [] |} /\ op = scanEndObject).
Proof. scan_unfold. repeat case_match; intros; simplify_eq/=; auto. Qed.

Lemma no_end_inside (st : state) (p : pstate) (ps : list pstate) (c : Z) :
  snd (scan_step {| step := st; parseState := p :: ps |} c) = scanEnd ->
  st = stateEndTop.
Proof.
  destruct st; cbn [scan_step step]; scan_unfold;
    repeat case_match; intros; simplify_eq/=; done.
Qed.

Lemma skip_flush (n : nat) (d : decodeState) (lit : option (list Z)) (ts : list token) :
  object (Skipping n) d (flush lit ++ ts) = object (Skipping n) d ts.
Proof. destruct lit; [|done]. cbn [flush app object]. by destruct n. Qed.

Ltac eqb_clash :=
  repeat match goal with
         | H : (_ =? _) = true |- _ => apply Z.eqb_eq in H
         end;
  ch_norm; exfalso; lia.

Ltac lit_start c :=
  first [ left; match goal with
                | H : (c =? quote) = true |- _ => apply Z.eqb_eq in H as ->
                end; apply StrLit_start
        | right; exists c, []; split_and!;
          [done | apply Z.eqb_neq; assumption | done] ].

Ltac skip_fin :=
  match goal with
  | Hok : Wok _ _ |- _ =>
      intros d; cbn [Wok length object] in *; first [apply Hok | case_match; apply Hok]
  end.

Ltac wok := intros evs Hok d; cbn [tokens flush app value object]; try apply Hok.

Lemma compat_step (sc : scanner) (w : wstate) (c : Z) (sc' : scanner) (op : opcode) :
  Compat sc w ->
  scan_step sc c = (sc', op) ->
  op <> scanEnd -> op <> scanError ->
  exists w',
    Compat sc' w'
    /\ (forall evs, Wok w' evs -> Wok w ((c, op) :: evs))
    /\ (parseState sc' = [] -> op = scanEndObject \/ op = scanEndArray -> w' = WDone).
Proof.
  intros HC Hstep Hend Herr. destruct HC.
  - (* nothing read yet *)
    cbn [scan_step step reset] in Hstep. unfold reset in *. scan_unfold.
    repeat case_match; simplify_eq/=.
    + exists WStart. split_and!; [constructor | wok | intros _ [|]; done].
    + exists (WObj AtKey None). split_and!; [constructor; auto | wok | intros _ [|]; done].
    + exists WDone. split_and!; [constructor | by wok | done].
    + exists (WTop [c]). split_and!; [constructor | wok | intros _ [|]; done].
      left. apply Z.eqb_eq in H2 as ->. apply StrLit_start.
    + exists (WTop [c]). split_and!; [constructor | wok | intros _ [|]; done].
      right. exists c, []. split_and!; [done | by apply Z.eqb_neq | done].
    + exists (WTop [c]). split_and!; [constructor | wok | intros _ [|]; done].
      right. exists c, []. split_and!; [done | by apply Z.eqb_neq | done].
    + exists (WTop [c]). split_and!; [constructor | wok | intros _ [|]; done].
      right. exists c, []. split_and!; [done | by apply Z.eqb_neq | done].
    + exists (WTop [c]). split_and!; [constructor | wok | intros _ [|]; done].
      right. exists c, []. split_and!; [done | by apply Z.eqb_neq | done].
    + exists (WTop [c]). split_and!; [constructor | wok | intros _ [|]; done].
      right. exists c, []. split_and!; [done | by apply Z.eqb_neq | done].
    + exists (WTop [c]). split_and!; [constructor | wok | intros _ [|]; done].
      right. exists c, []. split_and!; [done | by apply Z.eqb_neq | done].
  - exists WDone. split_and!; [constructor | done | done].
  - (* a literal at the top level *)
    destruct (LitOK_step st [] item c H) as [(st' & Hst' & Hl) | [He | [_ He]]].
    + rewrite Hstep in Hst'. injection Hst' as -> ->.
      exists (WTop (c :: item)). split_and!; [by constructor | wok | intros _ [|]; done].
    + by rewrite Hstep in He.
    + pose proof (endvalue_top c) as Ht. rewrite <- He, Hstep in Ht. done.
  - (* before a key *)
    assert (Hs : scan_step {| step := st; parseState := [parseObjectKey] |} c
                 = do_stateBeginStringOrEmpty
                     {| step := st; parseState := [parseObjectKey] |} c
                 \/ scan_step {| step := st; parseState := [parseObjectKey] |} c
                    = do_stateBeginString
                        {| step := st; parseState := [parseObjectKey] |} c)
      by (destruct H as [-> | ->]; auto).
    rewrite Hstep in Hs. clear Hstep. scan_unfold.
    destruct Hs as [Hs | Hs]; symmetry in Hs;
      repeat case_match; simplify_eq/=; try eqb_clash.
    + exists (WObj AtKey None). split_and!; [by constructor | wok | done].
    + exists WDone. split_and!; [constructor | by wok | done].
    + exists (WObj AtKey (Some [c])).
      split_and!; [constructor | wok | done].
      apply Z.eqb_eq in H2 as ->. apply StrLit_start.
    + exists (WObj AtKey None). split_and!; [by constructor | wok | done].
    + exists (WObj AtKey (Some [c])).
      split_and!; [constructor | wok | done].
      apply Z.eqb_eq in H1 as ->. apply StrLit_start.
  - (* inside a key *)
    destruct (StrLit_step st [parseObjectKey] item c H)
      as [(st' & Hst' & Hl) | [He | [-> He]]].
    + rewrite Hstep in Hst'. injection Hst' as -> ->.
      exists (WObj AtKey (Some (c :: item))).
      split_and!; [by constructor | wok | done].
    + by rewrite Hstep in He.
    + rewrite Hstep in He. symmetry in He.
      destruct (StrLit_unquote _ H) as [key Hkey].
      apply endvalue_key in He as [[-> ->] | [-> ->]]; [| |done].
      * exists (WObj (AtColon (is_url_field key)) None).
        split_and!; [constructor | | done].
        intros evs Hok d. cbn [tokens flush app object]. rewrite Hkey. apply Hok.
      * exists (WObj (AtValue (is_url_field key)) None).
        split_and!; [constructor | | done].
        intros evs Hok d. cbn [tokens flush app object]. rewrite Hkey.
        cbn [object]. apply Hok.
  - (* after a key *)
    cbn [scan_step step] in Hstep.
    apply endvalue_key in Hstep as [[-> ->] | [-> ->]]; [| |done].
    + exists (WObj (AtColon f) None). split_and!; [constructor | wok | done].
    + exists (WObj (AtValue f) None). split_and!; [constructor | wok | done].
  - (* before a value *)
    cbn [scan_step step] in Hstep. scan_unfold.
    repeat case_match; simplify_eq/=.
    + exists (WObj (AtValue f) None). split_and!; [constructor | wok | done].
    + exists (WObj (Skipping 0) None).
      split_and!; [by apply (CSkip _ _ _ []) | wok | done].
    + exists (WObj (Skipping 0) None).
      split_and!; [by apply (CSkip _ _ _ []) | wok | done].
    + exists (WObj (AtValue f) (Some [c])).
      split_and!; [constructor; lit_start c | wok | done].
    + exists (WObj (AtValue f) (Some [c])).
      split_and!; [constructor; lit_start c | wok | done].
    + exists (WObj (AtValue f) (Some [c])).
      split_and!; [constructor; lit_start c | wok | done].
    + exists (WObj (AtValue f) (Some [c])).
      split_and!; [constructor; lit_start c | wok | done].
    + exists (WObj (AtValue f) (Some [c])).
      split_and!; [constructor; lit_start c | wok | done].
    + exists (WObj (AtValue f) (Some [c])).
      split_and!; [constructor; lit_start c | wok | done].
    + exists (WObj (AtValue f) (Some [c])).
      split_and!; [constructor; lit_start c | wok | done].
  - (* inside a value literal *)
    destruct (LitOK_step st [parseObjectValue] item c H)
      as [(st' & Hst' & Hl) | [He | [Hst He]]].
    + rewrite Hstep in Hst'. injection Hst' as -> ->.
      exists (WObj (AtValue f) (Some (c :: item))).
      split_and!; [by constructor | wok | done].
    + by rewrite Hstep in He.
    + rewrite Hstep in He. symmetry in He.
      assert (Hstore : forall d, exists d',
                 (if f then literalStore_field (rev item) d else Some d) = Some d').
      { intros d. destruct f; [|by eexists].
        by destruct (LitOK_field st item d H Hst) as [d' ->]; eexists. }
      apply endvalue_value in He as [[-> ->] | [[-> ->] | [-> ->]]]; [| | |done].
      * exists (WObj AfterValue None). split_and!; [constructor | | done].
        intros evs Hok d. cbn [tokens flush app object].
        destruct (Hstore d) as [d' Hd']. destruct f; [rewrite Hd'|]; apply Hok.
      * exists (WObj AtKey None). split_and!; [constructor; auto | | done].
        intros evs Hok d. cbn [tokens flush app object].
        destruct (Hstore d) as [d' Hd']. destruct f; [rewrite Hd'|];
          cbn [object]; apply Hok.
      * exists WDone. split_and!; [constructor | | done].
        intros evs Hok d. cbn [tokens flush app object].
        destruct (Hstore d) as [d' Hd']. destruct f; [rewrite Hd'|];
          cbn [object]; by eexists.
  - (* after a value *)
    cbn [scan_step step] in Hstep.
    apply endvalue_value in Hstep as [[-> ->] | [[-> ->] | [-> ->]]]; [| | |done].
    + exists (WObj AfterValue None). split_and!; [constructor | wok | done].
    + exists (WObj AtKey None). split_and!; [constructor; auto | wok | done].
    + exists WDone. split_and!; [constructor | by wok | done].
  - (* inside a composite value of a member *)
    pose proof (stack_step st p (p2 :: ps) c sc' op Hstep Hend Herr) as Hs.
    destruct sc' as [st' ps']. cbn [step parseState] in Hs.
    assert (Hskip : forall lit' ts,
               (forall d, is_Some (object (Skipping (length ps)) d ts)) ->
               forall d, is_Some (object (Skipping (length ps)) d (flush lit' ++ ts))).
    { intros lit' ts Hts d. rewrite skip_flush. apply Hts. }
    destruct op; try done.
    + destruct Hs as (p' & -> & Hst').
      exists (WObj (Skipping (length ps)) (match lit with
                                           | Some item => Some (c :: item)
                                           | None => None
                                           end)).
      split_and!; [by constructor | wok | done].
    + destruct Hs as (p' & -> & Hst').
      exists (WObj (Skipping (length ps)) (Some [c])).
      split_and!; [by constructor | | done].
      intros evs Hok. cbn [Wok tokens]. by apply Hskip.
    + destruct Hs as (p' & -> & Hst').
      exists (WObj (Skipping (length (p2 :: ps))) None).
      split_and!; [by constructor | | done].
      intros evs Hok. cbn [Wok tokens]. apply Hskip. skip_fin.
    + destruct Hs as (p' & -> & Hst').
      exists (WObj (Skipping (length ps)) None).
      split_and!; [by constructor | | done].
      intros evs Hok. cbn [Wok tokens]. apply Hskip. skip_fin.
    + destruct Hs as (p' & -> & Hst').
      exists (WObj (Skipping (length ps)) None).
      split_and!; [by constructor | | done].
      intros evs Hok. cbn [Wok tokens]. apply Hskip. skip_fin.
    + destruct Hs as [-> ->]. destruct ps as [|p3 ps3].
      * cbn in H0. injection H0 as ->.
        exists (WObj AfterValue None). split_and!; [constructor | | done].
        intros evs Hok. cbn [Wok tokens]. apply Hskip. skip_fin.
      * exists (WObj (Skipping (length ps3)) None).
        split_and!; [by constructor | | done].
        intros evs Hok. cbn [Wok tokens]. apply Hskip. skip_fin.
    + destruct Hs as (p' & -> & Hst').
      exists (WObj (Skipping (length (p2 :: ps))) None).
      split_and!; [by constructor | | done].
      intros evs Hok. cbn [Wok tokens]. apply Hskip. skip_fin.
    + destruct Hs as (p' & -> & Hst').
      exists (WObj (Skipping (length ps)) None).
      split_and!; [by constructor | | done].
      intros evs Hok. cbn [Wok tokens]. apply Hskip. skip_fin.
    + destruct Hs as [-> ->]. destruct ps as [|p3 ps3].
      * cbn in H0. injection H0 as ->.
        exists (WObj AfterValue None). split_and!; [constructor | | done].
        intros evs Hok. cbn [Wok tokens]. apply Hskip. skip_fin.
      * exists (WObj (Skipping (length ps3)) None).
        split_and!; [by constructor | | done].
        intros evs Hok. cbn [Wok tokens]. apply Hskip. skip_fin.
    + destruct Hs as (p' & -> & Hst').
      exists (WObj (Skipping (length ps)) None).
      split_and!; [by constructor | | done].
      intros evs Hok. cbn [Wok tokens]. by apply Hskip.
Qed.

(** When the scanner reports the end of the top-level value, the decoder
    has a complete value in hand. *)
Lemma compat_end (sc : scanner) (w : wstate) (c : Z) :
  Compat sc w -> snd (scan_step sc c) = scanEnd -> Wok w [].
Proof.
  intros HC Hend. destruct HC; try done.
  - exfalso. cbn [scan_step step reset] in Hend. unfold reset in *. scan_unfold.
    repeat case_match; simplify_eq/=.
  - destruct (LitOK_step st [] item c H) as [(st' & Hst' & _) | [He | [Hst _]]].
    + by rewrite Hst' in Hend.
    + by rewrite He in Hend.
    + intros d. cbn [tokens flush value]. by eapply LitOK_struct.
  - apply no_end_inside in Hend as ->. by destruct H.
  - apply no_end_inside in Hend as ->.
    by destruct (StrLit_state _ _ H).
  - by apply no_end_inside in Hend.
  - by apply no_end_inside in Hend.
  - apply no_end_inside in Hend as ->.
    destruct H as [Hs | (? & ? & _ & _ & ?)]; [|done].
    by destruct (StrLit_state _ _ Hs).
  - by apply no_end_inside in Hend.
  - by apply no_end_inside in Hend.
Qed.

Lemma endvalue_closed (sc : scanner) :
  snd (do_stateEndValue sc (ch " ")) = scanEnd -> parseState sc = [].
Proof.
  destruct sc as [st [|p ps]]; [done|]. scan_unfold.
  change (isSpace (ch " ")) with true. cbn. discriminate.
Qed.

Lemma readValue_decodable (buf : list Z) :
  forall sc seen acc evs w,
    Compat sc w ->
    readValue sc buf seen acc = inl evs ->
    exists evs', evs = rev acc ++ evs' /\ Wok w evs'.
Proof.
  induction buf as [|c buf IH]; intros sc seen acc evs w HC Hread;
    cbn [readValue] in Hread.
  - destruct (scan_step sc (ch " ")) as [sc' op] eqn:Hstep.
    destruct op; try discriminate. injection Hread as <-.
    exists []. split; [by rewrite app_nil_r|].
    eapply compat_end; [done|]. by rewrite Hstep.
  - destruct (scan_step sc c) as [sc' op] eqn:Hstep.
    assert (Hgo : op <> scanEnd -> op <> scanError ->
              readValue sc' buf (seen || negb (isSpace c)) ((c, op) :: acc) = inl evs ->
              exists evs', evs = rev acc ++ evs' /\ Wok w evs').
    { intros H1 H2 Hr.
      destruct (compat_step sc w c sc' op HC Hstep H1 H2) as (w' & HC' & Hw & _).
      destruct (IH _ _ _ _ _ HC' Hr) as (evs' & -> & Hok).
      exists ((c, op) :: evs'). split; [|by apply Hw].
      cbn [rev]. by rewrite <- app_assoc. }
    assert (Hclose : op = scanEndObject \/ op = scanEndArray ->
              snd (do_stateEndValue sc' (ch " ")) = scanEnd ->
              inl (rev ((c, op) :: acc)) = (inl evs : _ + decode_error) ->
              exists evs', evs = rev acc ++ evs' /\ Wok w evs').
    { intros Hop Hcl [= <-].
      destruct (compat_step sc w c sc' op HC Hstep) as (w' & HC' & Hw & Hdone);
        [by destruct Hop as [-> | ->].. |].
      rewrite (Hdone (endvalue_closed _ Hcl) Hop) in Hw.
      exists [(c, op)]. split; [done | by apply Hw]. }
    destruct op; try (by apply Hgo); try discriminate.
    + destruct (snd (do_stateEndValue sc' (ch " "))) eqn:Hcl;
        first [ by apply Hgo | apply Hclose; auto ].
    + destruct (snd (do_stateEndValue sc' (ch " "))) eqn:Hcl;
        first [ by apply Hgo | apply Hclose; auto ].
    + injection Hread as <-. exists []. split; [by rewrite app_nil_r|].
      eapply compat_end; [done|]. by rewrite Hstep.
Qed.

(** [Decode] never panics: the scanner accepts nothing the decoder cannot
    walk. *)
Lemma Decode_total (body : string) : is_Some (Decode body).
Proof.
  unfold Decode.
  destruct (readValue reset (bytes_of_string body) false []) as [evs|e] eqn:Hread;
    [|by eexists].
  destruct (readValue_decodable _ _ _ _ _ _ CStart Hread) as (evs' & -> & Hok).
  cbn [rev app].
  destruct (Hok {| URL := EmptyString; savedError := None |}) as [d ->].
  destruct (savedError d); by eexists.
Qed.

End JsonSyncFacts.

(** ** Every answer of the handlers of /shorten *)

(** X10: [ShortUrlHandler] never panics, and its answer is one of three:
    405 for a method other than POST, 400 when [Decode] returns an error,
    and otherwise 201 with the link to the identifier of the decoded URL;
    the store is the one before the request in the first two cases and
    has the record of the URL under that identifier in the last. *)
Theorem ShortUrlHandler_answers (now : Time) (r : Request)
    (urlDB : gmap string Mem.URL) :
  (Method r <> "POST"
   /\ Mem.ShortUrlHandler now r urlDB
      = Some (http_Error "Invalid request method" 405, urlDB))
  \/ (Method r = "POST"
      /\ exists e,
          Json.Decode (Body r) = Some (Json.Failed e)
          /\ Mem.ShortUrlHandler now r urlDB
             = Some (http_Error "Invalid request body" 400, urlDB))
  \/ (Method r = "POST"
      /\ exists u id,
          Json.Decode (Body r) = Some (Json.Decoded u)
          /\ Mem.generateShortURL u = Some id
          /\ Mem.ShortUrlHandler now r urlDB
             = Some (json_short_url "application/json" 201
                       ("http://localhost:3000/redirect/" +:+ id),
                     <[id := {| Mem.ID := id; Mem.OriginalURL := u;
                                Mem.ShortURL := id; Mem.CreationDate := now |}]>
                       urlDB)).
Proof.
  destruct (String.eqb_spec (Method r) "POST") as [Hm | Hm].
  - right. destruct (JsonSyncFacts.Decode_total (Body r)) as [[u|e] Hd].
    + right. split; [done|]. exists u, (derive u).
      split_and!; [done | apply generateShortURL_derive |].
      by apply ShortUrlHandler_decoded.
    + left. split; [done|]. exists e. split; [done|].
      by eapply ShortUrlHandler_failed.
  - left. split; [done|]. unfold Mem.ShortUrlHandler, MethodPost.
    apply String.eqb_neq in Hm. by rewrite Hm.
Qed.

(** X11: the PostgreSQL [ShortUrlHandler] never panics either; it answers
    405, 400, 500 or 201, it never changes or removes a row, and it adds
    one only with a 201, for an identifier that had none. *)
Theorem Pg_ShortUrlHandler_answers (fault : option Pg.sql_error) (now : Time)
    (r : Request) (urls : gmap string Pg.row) :
  exists w urls',
    Pg.ShortUrlHandler fault now r urls = Some (w, urls')
    /\ (forall k row, urls !! k = Some row -> urls' !! k = Some row)
    /\ ((w = http_Error "Invalid request method" 405
         /\ Method r <> "POST" /\ urls' = urls)
        \/ (w = http_Error
                  "Invalid request body: please provide a JSON object with a 'url' key"
                  400
            /\ urls' = urls)
        \/ (w = http_Error "Internal server error" 500
            /\ is_Some fault /\ urls' = urls)
        \/ (exists u id,
              Json.Decode (Body r) = Some (Json.Decoded u)
              /\ Pg.generateShortURL u = Some id
              /\ StatusCode w = 201
              /\ (urls' = urls
                  \/ (fault = None /\ urls !! id = None
                      /\ urls' = <[id := {| Pg.original_url := u;
                                             Pg.creation_date := now |}]> urls)))).
Proof.
  unfold Pg.ShortUrlHandler, MethodPost.
  destruct (String.eqb_spec (Method r) "POST") as [Hm | Hm]; cbn [negb].
  2: { eexists _, _. split; [reflexivity|]. split; [done|]. left. done. }
  destruct (JsonSyncFacts.Decode_total (Body r)) as [[u|e] Hd]; rewrite Hd;
    cbn [mbind option_bind].
  2: { eexists _, _. split; [reflexivity|]. split; [done|]. right; left. done. }
  unfold Pg.createURL. rewrite Pg_generateShortURL_eq, generateShortURL_derive.
  cbn [mbind option_bind]. unfold Pg.ExecInsert.
  destruct fault as [[code|msg]|].
  - destruct (String.eqb code Pg.unique_violation); eexists _, _;
      (split; [reflexivity|]); (split; [done|]).
    + do 3 right. exists u, (derive u).
      split_and!; [done | apply generateShortURL_derive | done | by left].
    + right; right; left. split_and!; [done | by eexists | done].
  - eexists _, _. split; [reflexivity|]. split; [done|].
    right; right; left. split_and!; [done | by eexists | done].
  - destruct (urls !! derive u) as [row0|] eqn:Hrow; eexists _, _;
      (split; [reflexivity|]); split.
    + done.
    + do 3 right. exists u, (derive u).
      split_and!; [done | apply generateShortURL_derive | done | by left].
    + intros k row Hk. destruct (decide (derive u = k)) as [<- | Hne];
        [congruence | by rewrite lookup_insert_ne].
    + do 3 right. exists u, (derive u).
      split_and!; [done | apply generateShortURL_derive | done | by right].
Qed.

(** X12: the [ShortUrlHandler] and the [redirectURLHandler] of the second
    PostgreSQL revision behave as those of the first: for every request,
    table and fault the handlers of /shorten give the same table and the
    same answer up to the text of an error, and the handlers of /r/ give
    the same answer.  (Only these two handlers are compared, not what
    else the revisions do: opening the database, the handler of the root
    path, logging.) *)
Theorem Pg2_handlers_same_as_Pg (fault : option Pg.sql_error) (now : Time)
    (r : Request) (urls : gmap string Pg.row) :
  (exists w1 w2 urls',
      Pg.ShortUrlHandler fault now r urls = Some (w1, urls')
      /\ Pg2.ShortUrlHandler fault now r urls = Some (w2, urls')
      /\ same_answer w1 w2)
  /\ Pg2.redirectURLHandler fault r urls = Pg.redirectURLHandler fault r urls.
Proof.
  split.
  - unfold Pg.ShortUrlHandler, Pg2.ShortUrlHandler.
    destruct (negb _); [by eexists _, _, _|].
    destruct (JsonSyncFacts.Decode_total (Body r)) as [[u|e] Hd]; rewrite Hd;
      cbn [mbind option_bind]; [|by eexists _, _, _].
    unfold Pg.createURL, Pg2.createURL.
    change (Pg2.generateShortURL u) with (Pg.generateShortURL u).
    rewrite Pg_generateShortURL_eq, generateShortURL_derive.
    cbn [mbind option_bind]. unfold Pg.ExecInsert.
    destruct fault as [[code|msg]|].
    + destruct (String.eqb code Pg.unique_violation); by eexists _, _, _.
    + by eexists _, _, _.
    + destruct (urls !! derive u); by eexists _, _, _.
  - unfold Pg.redirectURLHandler, Pg2.redirectURLHandler.
    destruct (slice_from _ _) as [id|]; [|done]. cbn [mbind option_bind].
    unfold Pg.getURL, Pg2.getURL. by destruct (Pg.QueryRow fault id urls).
Qed.

(** X13: with no fault and no earlier row for the identifier, a request
    for the path of the link the PostgreSQL handler returns for a POST
    decoding to [u], /r/ followed by the identifier, is answered 302 with
    the [Location] that [http.Redirect] makes of [u] on that path: [u]
    itself when [u] begins with a scheme and consists of visible ASCII
    characters. *)
Theorem Pg_shorten_then_redirect (now : Time) (r : Request) (u id : string)
    (urls : gmap string Pg.row) :
  Method r = "POST" ->
  Json.Decode (Body r) = Some (Json.Decoded u) ->
  Pg.generateShortURL u = Some id ->
  urls !! id = None ->
  exists scheme urls',
    Pg.ShortUrlHandler None now r urls
    = Some (json_short_url "application/json" 201
              (scheme +:+ "://" +:+ Host r +:+ "/r/" +:+ id), urls')
    /\ forall r',
         Path r' = "/r/" +:+ id ->
         Pg.redirectURLHandler None r' urls'
         = Some (http_Redirect (Http.Location ("/r/" +:+ id) u) 302)
         /\ (has_scheme u = true -> visible_ascii u = true ->
             Pg.redirectURLHandler None r' urls' = Some (http_Redirect u 302)).
Proof.
  intros Hm Hd Hid Hfree.
  rewrite Pg_generateShortURL_eq, generateShortURL_derive in Hid.
  injection Hid as <-. eexists _, _. split.
  - apply (Pg_ShortUrlHandler_decoded now r urls _ u); [done..|].
    by rewrite Pg_createURL_no_fault, Hfree.
  - intros r' Hpath.
    rewrite (Pg_redirectURLHandler_eq None r' (derive u) _ Hpath),
      lookup_insert_eq, Hpath.
    split; [done|]. intros Hs Ha.
    change (Pg.original_url (row_of now u)) with u.
    by rewrite Location_absolute.
Qed.

Lemma Pg_shorten_then_redirect_witness :
  exists scheme urls',
    Pg.ShortUrlHandler None 1
      (request "POST" "/shorten" (shorten_body "https://example.com")) ∅
    = Some (json_short_url "application/json" 201
              (scheme +:+ "://" +:+ "localhost:3000" +:+ "/r/" +:+ "c984d06a"), urls')
    /\ forall r',
         Path r' = "/r/" +:+ "c984d06a" ->
         Pg.redirectURLHandler None r' urls'
         = Some (http_Redirect "https://example.com" 302).
Proof.
  destruct (Pg_shorten_then_redirect 1
              (request "POST" "/shorten" (shorten_body "https://example.com"))
              "https://example.com" "c984d06a" ∅ eq_refl)
    as (scheme & urls' & Hpost & Hget).
  - vm_compute. reflexivity.
  - vm_compute. reflexivity.
  - apply lookup_empty.
  - exists scheme, urls'. split; [exact Hpost|].
    intros r' Hpath. apply (Hget r' Hpath); reflexivity.
Defined.

(** ** Bodies *)

(** X14: a POST whose body the scanner rejects, or that ends before a
    JSON value is complete (the empty body for one), is answered 400 by
    the in-memory handler and by both PostgreSQL handlers, whatever the
    database would do, and the store is the one before the request. *)
Theorem ShortUrlHandler_not_json (fault : option Pg.sql_error) (now : Time)
    (r : Request) (e : Json.decode_error)
    (urlDB : gmap string Mem.URL) (urls : gmap string Pg.row) :
  Method r = "POST" ->
  Json.readValue Json.reset (bytes_of_string (Body r)) false [] = inr e ->
  Mem.ShortUrlHandler now r urlDB
  = Some (http_Error "Invalid request body" 400, urlDB)
  /\ Pg.ShortUrlHandler fault now r urls
     = Some (http_Error
               "Invalid request body: please provide a JSON object with a 'url' key"
               400, urls)
  /\ Pg2.ShortUrlHandler fault now r urls
     = Some (http_Error "Invalid request body" 400, urls).
Proof.
  intros Hm Hd%Decode_not_json. split_and!.
  - by eapply ShortUrlHandler_failed.
  - unfold Pg.ShortUrlHandler, MethodPost. by rewrite Hm, String.eqb_refl, Hd.
  - unfold Pg2.ShortUrlHandler, MethodPost. by rewrite Hm, String.eqb_refl, Hd.
Qed.

Lemma ShortUrlHandler_not_json_witness :
  Mem.ShortUrlHandler 1 (request "POST" "/shorten" "") ∅
  = Some (http_Error "Invalid request body" 400, ∅)
  /\ Mem.ShortUrlHandler 1 (request "POST" "/shorten" "url=https://example.com") ∅
     = Some (http_Error "Invalid request body" 400, ∅).
Proof.
  split.
  - refine (proj1 (ShortUrlHandler_not_json None 1 (request "POST" "/shorten" "")
                     Json.EOF ∅ ∅ eq_refl _)).
    vm_compute. reflexivity.
  - refine (proj1 (ShortUrlHandler_not_json None 1
                     (request "POST" "/shorten" "url=https://example.com")
                     Json.SyntaxError ∅ ∅ eq_refl _)).
    vm_compute. reflexivity.
Defined.

(** X15: a POST whose body is the object with the single member url, its
    value a string of printable ASCII bytes without double quote or
    backslash written as it is, is answered 201 with the link to the
    identifier of that string, and the string is stored under it. *)
Theorem ShortUrlHandler_plain_body (now : Time) (r : Request) (u : string)
    (urlDB : gmap string Mem.URL) :
  Method r = "POST" ->
  Body r = shorten_body u ->
  plain u = true ->
  exists id,
    Mem.generateShortURL u = Some id
    /\ Mem.ShortUrlHandler now r urlDB
       = Some (json_short_url "application/json" 201
                 ("http://localhost:3000/redirect/" +:+ id),
               <[id := {| Mem.ID := id; Mem.OriginalURL := u;
                          Mem.ShortURL := id; Mem.CreationDate := now |}]> urlDB).
Proof.
  intros Hm Hb Hp. exists (derive u). split; [apply generateShortURL_derive|].
  apply ShortUrlHandler_decoded; [done|]. rewrite Hb. by apply Decode_shorten_body.
Qed.

Lemma ShortUrlHandler_plain_body_witness :
  exists id,
    Mem.generateShortURL "https://www.google.com/search?q=golang+projects" = Some id
    /\ Mem.ShortUrlHandler 1
         (request "POST" "/shorten"
            (shorten_body "https://www.google.com/search?q=golang+projects")) ∅
       = Some (json_short_url "application/json" 201
                 ("http://localhost:3000/redirect/" +:+ id),
               <[id := {| Mem.ID := id;
                          Mem.OriginalURL :=
                            "https://www.google.com/search?q=golang+projects";
                          Mem.ShortURL := id; Mem.CreationDate := 1 |}]> ∅).
Proof.
  apply (ShortUrlHandler_plain_body 1
           (request "POST" "/shorten"
              (shorten_body "https://www.google.com/search?q=golang+projects"))
           "https://www.google.com/search?q=golang+projects" ∅ eq_refl eq_refl).
  vm_compute. reflexivity.
Defined.

(** ** Repeating a request *)

(** X16: the same request to /shorten a second time, on the store the
    first left, gets the same answer; the store keeps the same keys and
    every identifier keeps its URL. *)
Theorem ShortUrlHandler_repeat (now1 now2 : Time) (r : Request)
    (urlDB : gmap string Mem.URL) :
  exists w urlDB1 urlDB2,
    Mem.ShortUrlHandler now1 r urlDB = Some (w, urlDB1)
    /\ Mem.ShortUrlHandler now2 r urlDB1 = Some (w, urlDB2)
    /\ dom urlDB2 = dom urlDB1
    /\ forall id, Mem.OriginalURL <$> urlDB2 !! id = Mem.OriginalURL <$> urlDB1 !! id.
Proof.
  destruct (String.eqb_spec (Method r) "POST") as [Hm | Hm].
  - destruct (JsonSyncFacts.Decode_total (Body r)) as [[u|e] Hd].
    + eexists _, _, _.
      rewrite !(ShortUrlHandler_decoded _ r _ u Hm Hd).
      split_and!; [reflexivity.. | |].
      * by rewrite !dom_insert_L, (assoc_L (∪)), (idemp_L (∪)).
      * intros id. destruct (decide (derive u = id)) as [<- | Hne].
        -- by rewrite !lookup_insert_eq.
        -- by rewrite (lookup_insert_ne (<[_ := _]> urlDB)).
    + eexists _, _, _. rewrite !(ShortUrlHandler_failed _ r _ e Hm Hd). done.
  - apply String.eqb_neq in Hm. eexists _, _, _.
    unfold Mem.ShortUrlHandler, MethodPost. rewrite Hm. done.
Qed.

(** X17: the same for the PostgreSQL handler when the database does not
    fail: the second request gets the same answer and leaves the table
    exactly as the first left it. *)
Theorem Pg_ShortUrlHandler_repeat (now1 now2 : Time) (r : Request)
    (urls : gmap string Pg.row) :
  exists w urls1,
    Pg.ShortUrlHandler None now1 r urls = Some (w, urls1)
    /\ Pg.ShortUrlHandler None now2 r urls1 = Some (w, urls1).
Proof.
  destruct (String.eqb_spec (Method r) "POST") as [Hm | Hm].
  - destruct (JsonSyncFacts.Decode_total (Body r)) as [[u|e] Hd].
    + eexists _, _. split.
      * apply (Pg_ShortUrlHandler_decoded now1 r urls _ u); [done..|].
        apply Pg_createURL_no_fault.
      * apply (Pg_ShortUrlHandler_decoded now2 r _ _ u); [done..|].
        rewrite Pg_createURL_no_fault.
        destruct (urls !! derive u) as [row|] eqn:Hrow.
        -- by rewrite Hrow.
        -- by rewrite lookup_insert_eq.
    + eexists _, _. unfold Pg.ShortUrlHandler, MethodPost.
      rewrite Hm, String.eqb_refl, Hd. done.
  - apply String.eqb_neq in Hm. eexists _, _.
    unfold Pg.ShortUrlHandler, MethodPost. rewrite Hm. done.
Qed.

(** ** What a redirect can lead to *)

(** X18: on a store built by creates and gets from the empty one, a 302
    of [redirectURLHandler] for /redirect/id carries the [Location] that
    [http.Redirect] makes of the original URL stored under id, and id is
    the identifier of that URL; when the URL begins with a scheme and
    consists of visible ASCII characters, the [Location] is that URL and
    so has the identifier id. *)
Theorem redirect_target_has_id (ops : list Mem.op) (urlDB : gmap string Mem.URL)
    (r : Request) (id location : string) :
  Mem.run ops ∅ = Some urlDB ->
  Path r = "/redirect/" +:+ id ->
  Mem.redirectURLHandler r urlDB = Some (http_Redirect location 302) ->
  exists url,
    urlDB !! id = Some url
    /\ Mem.generateShortURL (Mem.OriginalURL url) = Some id
    /\ location = Http.Location (Path r) (Mem.OriginalURL url)
    /\ (has_scheme (Mem.OriginalURL url) = true ->
        visible_ascii (Mem.OriginalURL url) = true ->
        Mem.generateShortURL location = Some id).
Proof.
  intros Hrun Hpath. rewrite (redirectURLHandler_eq r id urlDB Hpath).
  destruct (urlDB !! id) as [url|] eqn:Hid; [|discriminate].
  intros [= <-]. exists url.
  destruct (store_inv_run ops ∅ urlDB store_inv_empty Hrun id url Hid)
    as (_ & _ & Hgen).
  split_and!; [done..|].
  intros Hs Ha. by rewrite Location_absolute.
Qed.

Lemma redirect_target_has_id_witness :
  Mem.generateShortURL "https://example.com" = Some "c984d06a".
Proof.
  destruct (redirect_target_has_id [Mem.Create 1 "https://example.com"]
              (<["c984d06a" := record_of 1 "https://example.com"]> ∅)
              (request "GET" "/redirect/c984d06a" "") "c984d06a"
              "https://example.com")
    as (url & Hid & _ & _ & Hloc).
  - cbn [Mem.run]. rewrite exec_Create. cbn [mbind option_bind].
    assert (Hd : derive "https://example.com" = "c984d06a")
      by (vm_compute; reflexivity).
    by rewrite Hd.
  - reflexivity.
  - rewrite (redirectURLHandler_eq (request "GET" "/redirect/c984d06a" "")
               "c984d06a" _ eq_refl), lookup_insert_eq.
    reflexivity.
  - rewrite lookup_insert_eq in Hid.
    assert (url = record_of 1 "https://example.com") as -> by congruence.
    apply Hloc; reflexivity.
Defined.
